(** * Motion-path drawing (source/blender/draw/intern/draw_anim_viz.c)

    A shallow embedding of [set_motion_path_color] and
    [draw_motion_path_instance], and the properties of the range resolver,
    the per-vertex colorizer and the emission passes.

    Conventions of the embedding.
    - A C [int] or [short] value is a [Z].  The arithmetic of the source is
      followed on executions free of signed overflow (which C leaves
      undefined); division and the loops, which C leaves undefined or
      non-terminating on some inputs, are fallible: the model returns
      [None] there.
    - C [float]/[double] values are kept abstract ([CFloat]): the
      development never relies on a rounding behaviour.
    - The objects reached through the pointer arguments ([scene], [ob],
      [pchan], [avs], [mpath]) and the OpenGL / immediate-mode state live in
      one [Memory]; every GL or immediate-mode call that changes the GL
      state or draws is appended to the log [calls] in program order.  The
      one query of the file, [glGetFloatv(GL_LINE_WIDTH, ...)] of line 218,
      is made on every call, reads the state and is not logged: "no call" in
      the statements below means no call of the log. *)

From Stdlib Require Import ZArith List Lia Bool QArith Qround.
Import ListNotations.
Open Scope Z_scope.

Set Implicit Arguments.

(** ** Floating-point values and the parts of Blender outside this file *)

Class CFloat := {
  float : Type;
  f_lit : Q -> float;                  (* a literal such as 0.25f *)
  f_of_int : Z -> float;               (* conversion of an int *)
  f_add : float -> float -> float;
  f_sub : float -> float -> float;
  f_mul : float -> float -> float
}.

(** Theme color identifiers of UI_resources.h used by this file. *)
Inductive theme_color := TH_BACK | TH_WIRE | TH_BONE_POSE | TH_CFRAME | TH_TEXT_HI.

(** [unsigned char ubcolor[3]]. *)
Definition uchar3 := (Z * Z * Z)%type.

Section WithFloat.
Context {FL : CFloat}.

(** [float v[3]]. *)
Definition vec3 := (float * float * float)%type.

(** Constants of the DNA headers and functions of BLI_math and the UI theme
    module: they are declared outside this file and enter as parameters. *)
Class Host := {
  MOTIONPATH_TYPE_ACFRA : Z;
  MOTIONPATH_FLAG_CUSTOM : Z;
  MOTIONPATH_FLAG_LINES : Z;
  MOTIONPATH_VIEW_KFRAS : Z;
  BONE_SELECTED : Z;
  SELECT : Z;
  mat4 : Type;                                        (* float m[4][4] *)
  invert_m4_m4 : mat4 -> mat4;
  rgb_float_to_uchar : vec3 -> uchar3;
  UI_GetThemeColorBlend3ubv : theme_color -> theme_color -> float -> uchar3;
  UI_GetThemeColorBlendShade3ubv :
    theme_color -> theme_color -> float -> Z -> uchar3
}.

(** Modelled from the spec: [mul_v3_v3fl] of BLI_math_vector is not part of
    this file; it scales a vector componentwise ("0.25x base color
    (componentwise)"). *)
Definition mul_v3_v3fl (a : vec3) (f : float) : vec3 :=
  let '(x, y, z) := a in (f_mul x f, f_mul y f, f_mul z f).

(** Modelled from the spec: [copy_v3_v3] of BLI_math_vector, a plain copy. *)
Definition copy_v3_v3 (a : vec3) : vec3 := a.

Context {H : Host}.

(** ** Data model *)

Record Scene := { cfra : Z }.                     (* scene->r.cfra, CFRA *)

Record Object := { ob_flag : Z; obmat : mat4; imat : mat4 }.

Record Bone := { bone_flag : Z }.

Record bPoseChannel := { bone : Bone }.

Record bAnimVizSettings := {
  path_type : Z;
  path_step : Z;
  path_viewflag : Z;
  path_sf : Z;
  path_ef : Z;
  path_bc : Z;
  path_ac : Z
}.

Record bMotionPath := {
  points : option (list vec3);        (* None is the NULL pointer *)
  start_frame : Z;
  end_frame : Z;
  color : vec3;
  line_thickness : Z;
  mp_flag : Z
}.

Inductive attrib := attr_pos | attr_color.

Inductive builtin_shader := GPU_SHADER_3D_SMOOTH_COLOR | GPU_SHADER_3D_UNIFORM_COLOR.

Inductive prim_type := GWN_PRIM_LINE_STRIP | GWN_PRIM_POINTS.

(** One constructor per GL / immediate-mode entry point the file calls.
    An attribute handle is named by the attribute it was created for, and
    [immVertex3fv pos mpv->co] records the index of [mpv] in
    [mpath->points]. *)
Inductive gpu_call :=
| glLineWidth (w : float)
| glPointSize (s : float)
| GWN_vertformat_attr_add (a : attrib)
| immBindBuiltinProgram (sh : builtin_shader)
| immUnbindProgram
| immBegin (p : prim_type) (n : Z)
| immEnd
| immAttrib3ubv (a : attrib) (c : uchar3)
| immVertex3fv (a : attrib) (mpv : Z)
| immUniformColor3ub (r g b : Z)
| immUniformColor3fv (c : vec3)
| immUniformThemeColor (t : theme_color).

Record GPU := {
  line_width : float;                  (* GL_LINE_WIDTH *)
  point_size : float;                  (* GL_POINT_SIZE *)
  calls : list gpu_call
}.

Record Memory := {
  scene : Scene;
  ob : Object;
  pchan : option bPoseChannel;        (* None is the NULL pointer *)
  avs : bAnimVizSettings;
  mpath : bMotionPath;
  gpu : GPU
}.

(** ** State and undefined behaviour *)

Definition M (A : Type) := Memory -> option (A * Memory).

Definition ret {A} (a : A) : M A := fun m => Some (a, m).

Definition bind {A B} (c : M A) (k : A -> M B) : M B :=
  fun m => match c m with
           | Some (a, m') => k a m'
           | None => None
           end.

Definition undefined {A} : M A := fun _ => None.

Definition get {A} (f : Memory -> A) : M A := fun m => Some (f m, m).

End WithFloat.

Declare Scope mpath_scope.
Delimit Scope mpath_scope with mpath.
Notation "x <- c ;; k" := (bind c (fun x => k))
  (at level 61, c at next level, right associativity) : mpath_scope.
Notation "c ;; k" := (bind c (fun _ => k))
  (at level 61, right associativity) : mpath_scope.
Open Scope mpath_scope.

Section Drawing.
Context {FL : CFloat} {H : Host}.

Definition set_gpu (g : GPU) (m : Memory) : Memory :=
  {| scene := scene m; ob := ob m; pchan := pchan m; avs := avs m;
     mpath := mpath m; gpu := g |}.

(** Append a call to the log. *)
Definition log (c : gpu_call) (g : GPU) : GPU :=
  {| line_width := line_width g; point_size := point_size g;
     calls := calls g ++ [c] |}.

Definition imm (c : gpu_call) : M unit :=
  fun m => Some (tt, set_gpu (log c (gpu m)) m).

Definition gl_LineWidth (w : float) : M unit :=
  fun m => Some (tt, set_gpu {| line_width := w;
                                point_size := point_size (gpu m);
                                calls := calls (gpu m) ++ [glLineWidth w] |} m).

Definition gl_PointSize (s : float) : M unit :=
  fun m => Some (tt, set_gpu {| line_width := line_width (gpu m);
                                point_size := s;
                                calls := calls (gpu m) ++ [glPointSize s] |} m).

(** [glGetFloatv(GL_LINE_WIDTH, &old_width)]: a query, made on every call
    before both early returns; it reads the line width and is not logged. *)
Definition gl_GetFloatv_LINE_WIDTH : M float := get (fun m => line_width (gpu m)).

(** [a & mask] used as a condition. *)
Definition test_flag (a mask : Z) : bool := negb (Z.land a mask =? 0).

(** Conversion of an [int] to [short]. *)
Definition to_short (z : Z) : Z := (z + 32768) mod 65536 - 32768.

(** Integer division; a zero divisor is undefined. *)
Definition int_div (a b : Z) : M Z :=
  if b =? 0 then undefined else ret (Z.quot a b).

(** [for (i = i0; i < len; i += step) body(i)].  The fuel bounds the number
    of iterations; running out of it stands for a loop that does not end. *)
Fixpoint for_loop (fuel : nat) (i len step : Z) (body : Z -> M unit) : M unit :=
  if i <? len then
    match fuel with
    | O => undefined
    | S fuel' => body i ;; for_loop fuel' (i + step) len step body
    end
  else ret tt.

(** ** set_motion_path_color (lines 121-189) *)

(** [#define SET_INTENSITY(A, B, C, min, max)
      (((1.0f - ((C - B) / (C - A))) * (max - min)) + min)]
    with int arguments A, B, C: the quotient is an integer division. *)
Definition SET_INTENSITY (A B C : Z) (min max : float) : M float :=
  q <- int_div (C - B) (C - A) ;;
  ret (f_add (f_mul (f_sub (f_lit 1.0) (f_of_int q)) (f_sub max min)) min).

Definition set_motion_path_color (i sel sfra efra : Z)
    (prev_color frame_color next_color : vec3) (color_attr : attrib) : M unit :=
  CFRA <- get (fun m => cfra (scene m)) ;;
  flag <- get (fun m => mp_flag (mpath m)) ;;
  let frame := sfra + i in
  let blend_base := if Z.abs (frame - CFRA) =? 1 then TH_CFRAME else TH_BACK in
  ubcolor <-
    (if frame <? CFRA then
       if test_flag flag MOTIONPATH_FLAG_CUSTOM then
         ret (rgb_float_to_uchar prev_color)
       else
         intensity <-
           (if negb (sel =? 0)
            then SET_INTENSITY sfra i CFRA (f_lit 0.25) (f_lit 0.75)
            else SET_INTENSITY sfra i CFRA (f_lit 0.68) (f_lit 0.92)) ;;
         ret (UI_GetThemeColorBlend3ubv TH_WIRE blend_base intensity)
     else if frame >? CFRA then
       if test_flag flag MOTIONPATH_FLAG_CUSTOM then
         ret (rgb_float_to_uchar next_color)
       else
         intensity <-
           (if negb (sel =? 0)
            then SET_INTENSITY CFRA i efra (f_lit 0.25) (f_lit 0.75)
            else SET_INTENSITY CFRA i efra (f_lit 0.68) (f_lit 0.92)) ;;
         ret (UI_GetThemeColorBlend3ubv TH_BONE_POSE blend_base intensity)
     else
       if test_flag flag MOTIONPATH_FLAG_CUSTOM then
         ret (rgb_float_to_uchar frame_color)
       else
         let intensity := if negb (sel =? 0) then f_lit 0.5 else f_lit 0.99 in
         ret (UI_GetThemeColorBlendShade3ubv TH_CFRAME TH_BACK intensity 10)) ;;
  imm (immAttrib3ubv color_attr ubcolor).

(** ** draw_motion_path_instance (lines 195-461) *)

(** "get frame ranges" (lines 221-232): the requested window. *)
Definition frame_range (CFRA : Z) (a : bAnimVizSettings) : Z * Z :=
  if path_type a =? MOTIONPATH_TYPE_ACFRA
  then (CFRA - path_bc a, CFRA + path_ac a)
  else (path_sf a, path_ef a).

(** Start clamp and end clamp (lines 238-245). *)
Definition clamp_range (mp : bMotionPath) (r : Z * Z) : Z * Z :=
  let '(sfra, efra) := r in
  let sfra := if sfra <? start_frame mp then start_frame mp else sfra in
  let efra := if efra >? end_frame mp then end_frame mp else efra in
  (sfra, efra).

(** The pair [(sfra, efra)] the function holds from line 246 on. *)
Definition resolved_range (m : Memory) : Z * Z :=
  clamp_range (mpath m) (frame_range (cfra (scene m)) (avs m)).

(** [invert_m4_m4(ob->imat, ob->obmat)]. *)
Definition store_imat : M unit :=
  fun m => Some (tt,
    {| scene := scene m;
       ob := {| ob_flag := ob_flag (ob m); obmat := obmat (ob m);
                imat := invert_m4_m4 (obmat (ob m)) |};
       pchan := pchan m; avs := avs m; mpath := mpath m; gpu := gpu m |}).

(** [(pchan) ? (pchan->bone->flag & BONE_SELECTED) : (ob->flag & SELECT)],
    stored in a [short]. *)
Definition selection (m : Memory) : Z :=
  to_short (match pchan m with
            | Some pc => Z.land (bone_flag (bone pc)) BONE_SELECTED
            | None => Z.land (ob_flag (ob m)) SELECT
            end).

Definition is_null {A} (p : option A) : bool :=
  match p with None => true | Some _ => false end.

Definition draw_motion_path_instance : M unit :=
  stepsize <- get (fun m => path_step (avs m)) ;;
  mp <- get mpath ;;
  a <- get avs ;;
  CFRA <- get (fun m => cfra (scene m)) ;;
  let prev_color := mul_v3_v3fl (color mp) (f_lit 0.25) in
  let frame_color := mul_v3_v3fl (color mp) (f_lit 0.5) in
  let next_color := copy_v3_v3 (color mp) in
  old_width <- gl_GetFloatv_LINE_WIDTH ;;
  let '(sfra, efra) := clamp_range mp (frame_range CFRA a) in
  if (sfra >? end_frame mp) || (efra <? start_frame mp) then
    ret tt                                   (* whole path is out of bounds *)
  else
  let len := efra - sfra in
  if (len <=? 0) || is_null (points mp) then
    ret tt
  else
  let sind := sfra - start_frame mp in
  (* draw curve-line of path *)
  (if test_flag (mp_flag mp) MOTIONPATH_FLAG_LINES then
     gl_LineWidth (f_of_int (line_thickness mp)) ;;
     imm (GWN_vertformat_attr_add attr_pos) ;;
     imm (GWN_vertformat_attr_add attr_color) ;;
     imm (immBindBuiltinProgram GPU_SHADER_3D_SMOOTH_COLOR) ;;
     imm (immBegin GWN_PRIM_LINE_STRIP len) ;;
     for_loop (Z.to_nat len) 0 len 1 (fun i =>
       sel <- get selection ;;
       set_motion_path_color i sel sfra efra
         prev_color frame_color next_color attr_color ;;
       imm (immVertex3fv attr_pos (sind + i))) ;;
     imm immEnd ;;
     imm immUnbindProgram ;;
     gl_LineWidth old_width                  (* back to old line thickness *)
   else ret tt) ;;
  imm (GWN_vertformat_attr_add attr_pos) ;;
  imm (immBindBuiltinProgram GPU_SHADER_3D_UNIFORM_COLOR) ;;
  gl_PointSize (f_add (f_of_int (line_thickness mp)) (f_lit 1.0)) ;;
  (* draw little black point at each frame *)
  imm (immUniformColor3ub 0 0 0) ;;
  imm (immBegin GWN_PRIM_POINTS len) ;;
  for_loop (Z.to_nat len) 0 len 1 (fun i =>
    imm (immVertex3fv attr_pos (sind + i))) ;;
  imm immEnd ;;
  (* dots at each framestep value *)
  (if test_flag (mp_flag mp) MOTIONPATH_FLAG_CUSTOM
   then imm (immUniformColor3fv (color mp))
   else imm (immUniformThemeColor TH_TEXT_HI)) ;;
  count <- int_div (len + stepsize - 1) stepsize ;;
  imm (immBegin GWN_PRIM_POINTS count) ;;
  for_loop (Z.to_nat len) 0 len stepsize (fun i =>
    imm (immVertex3fv attr_pos (sind + i))) ;;
  imm immEnd ;;
  (* big dot where the current frame is *)
  (if test_flag (path_viewflag a) MOTIONPATH_VIEW_KFRAS
      && (sfra <? CFRA) && (CFRA <=? efra) then
     gl_PointSize (f_add (f_of_int (line_thickness mp)) (f_lit 5.0)) ;;
     imm (immUniformThemeColor TH_CFRAME) ;;
     imm (immBegin GWN_PRIM_POINTS 1) ;;
     imm (immVertex3fv attr_pos (sind + (CFRA - sfra))) ;;
     imm immEnd
   else ret tt) ;;
  imm immUnbindProgram ;;
  store_imat.

(** ** What a run adds to the log *)

(** The memory after the calls [l] were logged. *)
Definition add_calls (l : list gpu_call) (m : Memory) : Memory :=
  set_gpu {| line_width := line_width (gpu m);
             point_size := point_size (gpu m);
             calls := calls (gpu m) ++ l |} m.

(** The indices a loop [for (i = i0; i < len; i += step)] visits in [n]
    rounds. *)
Definition visited (n : nat) (i0 step : Z) : list Z :=
  map (fun k => i0 + Z.of_nat k * step) (seq 0 n).

(** The value of SET_INTENSITY where its divisor is not zero. *)
Definition intensity_of (A B C : Z) (min max : float) : float :=
  f_add (f_mul (f_sub (f_lit 1.0) (f_of_int (Z.quot (C - B) (C - A))))
               (f_sub max min)) min.

(** The color [set_motion_path_color] hands to [immAttrib3ubv]. *)
Definition vertex_color (CFRA flag i sel sfra efra : Z)
    (prev_color frame_color next_color : vec3) : uchar3 :=
  let frame := sfra + i in
  let blend_base := if Z.abs (frame - CFRA) =? 1 then TH_CFRAME else TH_BACK in
  let custom := test_flag flag MOTIONPATH_FLAG_CUSTOM in
  let lo := if negb (sel =? 0) then f_lit 0.25 else f_lit 0.68 in
  let hi := if negb (sel =? 0) then f_lit 0.75 else f_lit 0.92 in
  if frame <? CFRA then
    if custom then rgb_float_to_uchar prev_color
    else UI_GetThemeColorBlend3ubv TH_WIRE blend_base
           (intensity_of sfra i CFRA lo hi)
  else if frame >? CFRA then
    if custom then rgb_float_to_uchar next_color
    else UI_GetThemeColorBlend3ubv TH_BONE_POSE blend_base
           (intensity_of CFRA i efra lo hi)
  else
    if custom then rgb_float_to_uchar frame_color
    else UI_GetThemeColorBlendShade3ubv TH_CFRAME TH_BACK
           (if negb (sel =? 0) then f_lit 0.5 else f_lit 0.99) 10.

(** The color of vertex [i] of the line strip drawn from memory [m]. *)
Definition strip_color (m : Memory) (sfra efra i : Z) : uchar3 :=
  vertex_color (cfra (scene m)) (mp_flag (mpath m)) i (selection m) sfra efra
    (mul_v3_v3fl (color (mpath m)) (f_lit 0.25))
    (mul_v3_v3fl (color (mpath m)) (f_lit 0.5))
    (copy_v3_v3 (color (mpath m))).

(** The calls of the four passes, for a resolved range [sfra, efra]. *)
Definition line_pass (m : Memory) (sfra efra : Z) : list gpu_call :=
  let len := efra - sfra in
  let sind := sfra - start_frame (mpath m) in
  if test_flag (mp_flag (mpath m)) MOTIONPATH_FLAG_LINES then
    [glLineWidth (f_of_int (line_thickness (mpath m)));
     GWN_vertformat_attr_add attr_pos;
     GWN_vertformat_attr_add attr_color;
     immBindBuiltinProgram GPU_SHADER_3D_SMOOTH_COLOR;
     immBegin GWN_PRIM_LINE_STRIP len]
    ++ flat_map (fun i => [immAttrib3ubv attr_color (strip_color m sfra efra i);
                           immVertex3fv attr_pos (sind + i)])
                (visited (Z.to_nat len) 0 1)
    ++ [immEnd; immUnbindProgram; glLineWidth (line_width (gpu m))]
  else [].

Definition frame_dots_pass (m : Memory) (sfra efra : Z) : list gpu_call :=
  let len := efra - sfra in
  let sind := sfra - start_frame (mpath m) in
  [GWN_vertformat_attr_add attr_pos;
   immBindBuiltinProgram GPU_SHADER_3D_UNIFORM_COLOR;
   glPointSize (f_add (f_of_int (line_thickness (mpath m))) (f_lit 1.0));
   immUniformColor3ub 0 0 0;
   immBegin GWN_PRIM_POINTS len]
  ++ map (fun i => immVertex3fv attr_pos (sind + i)) (visited (Z.to_nat len) 0 1)
  ++ [immEnd].

(** The number of step dots: [(len + stepsize - 1) / stepsize]. *)
Definition step_count (len stepsize : Z) : Z := Z.quot (len + stepsize - 1) stepsize.

Definition step_dots_pass (m : Memory) (sfra efra : Z) : list gpu_call :=
  let len := efra - sfra in
  let sind := sfra - start_frame (mpath m) in
  let stepsize := path_step (avs m) in
  [if test_flag (mp_flag (mpath m)) MOTIONPATH_FLAG_CUSTOM
   then immUniformColor3fv (color (mpath m))
   else immUniformThemeColor TH_TEXT_HI;
   immBegin GWN_PRIM_POINTS (step_count len stepsize)]
  ++ map (fun i => immVertex3fv attr_pos (sind + i))
         (visited (Z.to_nat (step_count len stepsize)) 0 stepsize)
  ++ [immEnd].

(** The condition of line 331-332. *)
Definition cframe_marker_drawn (m : Memory) (sfra efra : Z) : bool :=
  test_flag (path_viewflag (avs m)) MOTIONPATH_VIEW_KFRAS
  && (sfra <? cfra (scene m)) && (cfra (scene m) <=? efra).

Definition cframe_pass (m : Memory) (sfra efra : Z) : list gpu_call :=
  let sind := sfra - start_frame (mpath m) in
  if cframe_marker_drawn m sfra efra then
    [glPointSize (f_add (f_of_int (line_thickness (mpath m))) (f_lit 5.0));
     immUniformThemeColor TH_CFRAME;
     immBegin GWN_PRIM_POINTS 1;
     immVertex3fv attr_pos (sind + (cfra (scene m) - sfra));
     immEnd]
  else [].

(** The call reaches the drawing stage: neither early return is taken. *)
Definition reaches_drawing (m : Memory) : bool :=
  let '(sfra, efra) := resolved_range m in
  negb ((sfra >? end_frame (mpath m)) || (efra <? start_frame (mpath m)))
  && negb ((efra - sfra <=? 0) || is_null (points (mpath m))).

(** The memory a call that reaches the drawing stage returns with. *)
Definition drawn (m : Memory) : Memory :=
  let '(sfra, efra) := resolved_range m in
  {| scene := scene m;
     ob := {| ob_flag := ob_flag (ob m); obmat := obmat (ob m);
              imat := invert_m4_m4 (obmat (ob m)) |};
     pchan := pchan m; avs := avs m; mpath := mpath m;
     gpu := {| line_width := line_width (gpu m);
               point_size :=
                 f_add (f_of_int (line_thickness (mpath m)))
                       (if cframe_marker_drawn m sfra efra
                        then f_lit 5.0 else f_lit 1.0);
               calls := calls (gpu m)
                        ++ line_pass m sfra efra
                        ++ frame_dots_pass m sfra efra
                        ++ step_dots_pass m sfra efra
                        ++ cframe_pass m sfra efra
                        ++ [immUnbindProgram] |} |}.

(** The calls a run appends to the log; [None] if the run does not return. *)
Definition emitted (m : Memory) : option (list gpu_call) :=
  match draw_motion_path_instance m with
  | Some (_, m') => Some (skipn (length (calls (gpu m))) (calls (gpu m')))
  | None => None
  end.

(** ** Vocabulary of the properties *)

(** The closed frame interval [fst r, snd r] lies inside [fst o, snd o]. *)
Definition within (r o : Z * Z) : Prop :=
  forall f, fst r <= f <= snd r -> fst o <= f <= snd o.

(** The inclusive frame range of the cache. *)
Definition cache_range (mp : bMotionPath) : Z * Z := (start_frame mp, end_frame mp).

(** The requested window shares a frame with the cache. *)
Definition overlaps (req : Z * Z) (mp : bMotionPath) : Prop :=
  exists f, fst req <= f <= snd req /\ start_frame mp <= f <= end_frame mp.

(** The requested window lies entirely before or entirely after the cache. *)
Definition outside (req : Z * Z) (mp : bMotionPath) : Prop :=
  snd req < start_frame mp \/ end_frame mp < fst req.

(** The index in [mpath->points] of the sample of frame [f]. *)
Definition sample_of_frame (mp : bMotionPath) (f : Z) : Z := f - start_frame mp.

(** The vertices sent from the head of [l] up to the next [immEnd]. *)
Fixpoint vertices_until_end (l : list gpu_call) : list Z :=
  match l with
  | [] => []
  | immEnd :: _ => []
  | immVertex3fv _ v :: l' => v :: vertices_until_end l'
  | _ :: l' => vertices_until_end l'
  end.

(** The first line strip of a log: its announced vertex count and the
    vertices sent between its [immBegin] and [immEnd]. *)
Fixpoint line_strip_of (l : list gpu_call) : option (Z * list Z) :=
  match l with
  | [] => None
  | immBegin GWN_PRIM_LINE_STRIP n :: l' => Some (n, vertices_until_end l')
  | _ :: l' => line_strip_of l'
  end.

(** The frames a pass over the resolved range visits: sfra, ..., efra - 1. *)
Definition drawn_frames (sfra efra : Z) : list Z :=
  visited (Z.to_nat (efra - sfra)) sfra 1.

(** The run of [m] returns and its line strip has a vertex for every frame
    of [lo, hi]. *)
Definition line_strip_covers (m : Memory) (lo hi : Z) : Prop :=
  exists l n vs,
    emitted m = Some l /\ line_strip_of l = Some (n, vs) /\
    forall f, lo <= f <= hi -> In (sample_of_frame (mpath m) f) vs.

(** The base color scaled as the custom-color mode asks for the frame [f]:
    by 0.25 before the current frame, by 0.5 on it, unscaled after it. *)
Definition custom_scaled (base : vec3) (CFRA f : Z) : vec3 :=
  let '(r, g, b) := base in
  if f <? CFRA then
    (f_mul r (f_lit 0.25), f_mul g (f_lit 0.25), f_mul b (f_lit 0.25))
  else if CFRA <? f then (r, g, b)
  else (f_mul r (f_lit 0.5), f_mul g (f_lit 0.5), f_mul b (f_lit 0.5)).

(** The run of [m] returns and has sent the current-frame marker, the only
    primitive drawn in the theme color TH_CFRAME. *)
Definition cframe_marker_emitted (m : Memory) : Prop :=
  exists l, emitted m = Some l /\ In (immUniformThemeColor TH_CFRAME) l.

End Drawing.

(** ** A concrete host, to run the model on examples

    Floating values are read as exact rationals; the constants are those of
    Blender's DNA headers; a matrix is represented by the factor of a uniform
    scaling; the theme is one fixed table of colors. *)

Definition QFloat : CFloat :=
  {| float := Q;
     f_lit := fun q => q;
     f_of_int := inject_Z;
     f_add := fun a b => Qred (a + b);
     f_sub := fun a b => Qred (a - b);
     f_mul := fun a b => Qred (a * b) |}.

(** The byte of a unit float, rounded in exact rationals (the program rounds
    in single precision; the examples below stay where both agree). *)
Definition unit_float_to_uchar (v : Q) : Z :=
  if Qle_bool v 0 then 0
  else if Qle_bool v (1 - (1 # 510)) then Qfloor (255 * v + (1 # 2))
  else 255.

Definition theme_rgb (t : theme_color) : uchar3 :=
  match t with
  | TH_BACK => (57, 57, 57)
  | TH_WIRE => (0, 0, 0)
  | TH_BONE_POSE => (80, 200, 255)
  | TH_CFRAME => (96, 192, 64)
  | TH_TEXT_HI => (255, 255, 255)
  end.

(** The factor is clamped to [0, 1] before blending. *)
Definition clamp_unit (fac : Q) : Q :=
  if Qle_bool fac 0 then 0%Q else if Qle_bool 1 fac then 1%Q else fac.

Definition blend_channel (fac : Q) (a b : Z) : Z :=
  Qfloor ((1 - clamp_unit fac) * inject_Z a + clamp_unit fac * inject_Z b).

Definition theme_blend (t1 t2 : theme_color) (fac : Q) : uchar3 :=
  let '(r1, g1, b1) := theme_rgb t1 in
  let '(r2, g2, b2) := theme_rgb t2 in
  (blend_channel fac r1 r2, blend_channel fac g1 g2, blend_channel fac b1 b2).

Definition shade_channel (offset c : Z) : Z := Z.max 0 (Z.min 255 (c + offset)).

Definition QHost : @Host QFloat :=
  {| MOTIONPATH_TYPE_ACFRA := 1;
     MOTIONPATH_FLAG_CUSTOM := 4;
     MOTIONPATH_FLAG_LINES := 8;
     MOTIONPATH_VIEW_KFRAS := 2;
     BONE_SELECTED := 1;
     SELECT := 1;
     mat4 := Q;
     invert_m4_m4 := Qinv;
     rgb_float_to_uchar := fun c : @vec3 QFloat =>
       let '(r, g, b) := c in
       (unit_float_to_uchar r, unit_float_to_uchar g, unit_float_to_uchar b);
     UI_GetThemeColorBlend3ubv := fun t1 t2 (fac : @float QFloat) =>
       theme_blend t1 t2 fac;
     UI_GetThemeColorBlendShade3ubv := fun t1 t2 (fac : @float QFloat) offset =>
       let '(r, g, b) := theme_blend t1 t2 fac in
       (shade_channel offset r, shade_channel offset g, shade_channel offset b)
  |}.

Definition QMemory := @Memory QFloat QHost.

(** A path cached over frames [s, e], of thickness 1 and base color
    (1, 0.5, 0.25). *)
Definition cached_path (s e flag : Z) : @bMotionPath QFloat :=
  @Build_bMotionPath QFloat
    (Some (repeat (0, 0, 0)%Q (Z.to_nat (e - s))))   (* points *)
    s e                                              (* start_frame, end_frame *)
    (1, 1 # 2, 1 # 4)%Q                              (* color *)
    1                                                (* line_thickness *)
    flag.

(** Settings that show the explicit range [sf, ef]. *)
Definition show_range (sf ef step viewflag : Z) : bAnimVizSettings :=
  {| path_type := 0; path_step := step; path_viewflag := viewflag;
     path_sf := sf; path_ef := ef; path_bc := 0; path_ac := 0 |}.

(** Settings that show [bc] frames before and [ac] frames after CFRA. *)
Definition show_around (bc ac step viewflag : Z) : bAnimVizSettings :=
  {| path_type := 1; path_step := step; path_viewflag := viewflag;
     path_sf := 0; path_ef := 0; path_bc := bc; path_ac := ac |}.

(** An unselected object at current frame [CFRA], line width and point
    size 1, nothing logged yet. *)
Definition at_frame (CFRA : Z) (a : bAnimVizSettings)
    (mp : @bMotionPath QFloat) : QMemory :=
  @Build_Memory QFloat QHost
    {| cfra := CFRA |}
    (@Build_Object QFloat QHost 0 (2 # 1)%Q (1 # 1)%Q)
    None a mp
    (@Build_GPU QFloat (1 # 1)%Q (1 # 1)%Q []).

Definition black : @vec3 QFloat := (0, 0, 0)%Q.

(** Three frames around the current frame 3 of a path cached over [1, 9]. *)
Definition around_frame_3 : QMemory :=
  at_frame 3 (show_around 1 1 1 2) (cached_path 1 9 0).

(** The cache range [1, 5] shown whole, lines drawn, keyframes shown, with
    the current frame on the first frame of the range. *)
Definition current_frame_at_start : QMemory :=
  at_frame 1 (show_range 1 5 2 2) (cached_path 1 5 8).

(** The cache range [1, 5] shown whole with lines drawn, current frame 3. *)
Definition lines_over_1_5 : QMemory :=
  at_frame 3 (show_range 1 5 1 0) (cached_path 1 5 8).

(** The cache range [1, 5] shown whole with keyframes shown and a custom
    color, current frame 3. *)
Definition keyframes_over_1_5 : QMemory :=
  at_frame 3 (show_range 1 5 2 2) (cached_path 1 5 4).

(** ** The immediate-mode protocol

    The rules the emitted calls are checked against: vertex attributes are
    declared while no program is bound; a program is bound once and unbound
    before the next; a primitive is opened by [immBegin] with a vertex count,
    receives exactly that many vertices (an attribute only ahead of a vertex
    still due) and is closed by [immEnd]; uniforms need a bound program;
    line width and point size are not touched inside a primitive. *)

Record imm_state := {
  program_bound : bool;
  vertices_left : option Z          (* Some k inside a primitive *)
}.

Definition imm_idle : imm_state :=
  {| program_bound := false; vertices_left := None |}.

Section Protocol.
Context {FL : CFloat}.

Definition imm_step (s : imm_state) (c : gpu_call) : option imm_state :=
  match vertices_left s with
  | None =>
      match c with
      | glLineWidth _ | glPointSize _ => Some s
      | GWN_vertformat_attr_add _ =>
          if program_bound s then None else Some s
      | immBindBuiltinProgram _ =>
          if program_bound s then None
          else Some {| program_bound := true; vertices_left := None |}
      | immUnbindProgram =>
          if program_bound s then Some imm_idle else None
      | immBegin _ n =>
          if program_bound s && (0 <=? n)
          then Some {| program_bound := true; vertices_left := Some n |}
          else None
      | immUniformColor3ub _ _ _ | immUniformColor3fv _
      | immUniformThemeColor _ =>
          if program_bound s then Some s else None
      | immEnd | immAttrib3ubv _ _ | immVertex3fv _ _ => None
      end
  | Some k =>
      match c with
      | immAttrib3ubv _ _ => if 0 <? k then Some s else None
      | immVertex3fv _ _ =>
          if 0 <? k
          then Some {| program_bound := program_bound s;
                       vertices_left := Some (k - 1) |}
          else None
      | immEnd =>
          if k =? 0
          then Some {| program_bound := program_bound s;
                       vertices_left := None |}
          else None
      | _ => None
      end
  end.

Fixpoint imm_run (s : imm_state) (l : list gpu_call) : option imm_state :=
  match l with
  | [] => Some s
  | c :: l' =>
      match imm_step s c with
      | Some s' => imm_run s' l'
      | None => None
      end
  end.

End Protocol.

(** ** draw_motion_paths_init and draw_motion_paths_cleanup (lines 100-109,
    463-468)

    OpenGL and GPU_matrix are outside this file.  Their calls are given their
    documented meaning on the state they act on: [glEnable]/[glDisable] set
    the GL_DEPTH_TEST capability, [gpuPushMatrix] saves a copy of the current
    model-view matrix on the stack, [gpuLoadMatrix] replaces the current
    matrix, [gpuPopMatrix] takes the saved matrix back and is undefined on an
    empty stack. *)

Section Viewport.
Context {FL : CFloat} {H : Host}.

Record View3D := { zbuf : Z }.

Record RegionView3D := { viewmat : mat4 }.

Record ARegion := { regiondata : RegionView3D }.

Record ViewGL := {
  depth_test : bool;                 (* GL_DEPTH_TEST *)
  modelview : mat4;                  (* current model-view matrix *)
  modelview_stack : list mat4        (* saved matrices, last pushed first *)
}.

Definition glDisable_DEPTH_TEST (g : ViewGL) : ViewGL :=
  {| depth_test := false; modelview := modelview g;
     modelview_stack := modelview_stack g |}.

Definition glEnable_DEPTH_TEST (g : ViewGL) : ViewGL :=
  {| depth_test := true; modelview := modelview g;
     modelview_stack := modelview_stack g |}.

Definition gpuPushMatrix (g : ViewGL) : ViewGL :=
  {| depth_test := depth_test g; modelview := modelview g;
     modelview_stack := modelview g :: modelview_stack g |}.

Definition gpuLoadMatrix (mat : mat4) (g : ViewGL) : ViewGL :=
  {| depth_test := depth_test g; modelview := mat;
     modelview_stack := modelview_stack g |}.

Definition gpuPopMatrix (g : ViewGL) : option ViewGL :=
  match modelview_stack g with
  | [] => None
  | saved :: rest =>
      Some {| depth_test := depth_test g; modelview := saved;
              modelview_stack := rest |}
  end.

Definition draw_motion_paths_init (v3d : View3D) (ar : ARegion)
    (g : ViewGL) : ViewGL :=
  let rv3d := regiondata ar in
  let g := if negb (zbuf v3d =? 0) then glDisable_DEPTH_TEST g else g in
  let g := gpuPushMatrix g in
  gpuLoadMatrix (viewmat rv3d) g.

Definition draw_motion_paths_cleanup (v3d : View3D) (g : ViewGL)
    : option ViewGL :=
  let g := if negb (zbuf v3d =? 0) then glEnable_DEPTH_TEST g else g in
  gpuPopMatrix g.

End Viewport.

(** The explicit window [4, 4] on a path cached over [1, 9]. *)
Definition single_frame_window : QMemory :=
  at_frame 3 (show_range 4 4 1 2) (cached_path 1 9 8).

(** A view with a depth buffer, a region of view matrix 3, and a GL state
    with the depth test on, the matrix 1 current and nothing pushed. *)
Definition solid_view : View3D := {| zbuf := 1 |}.

Definition scaled_region : @ARegion QFloat QHost :=
  @Build_ARegion QFloat QHost (@Build_RegionView3D QFloat QHost (3 # 1)%Q).

Definition depth_tested_gl : @ViewGL QFloat QHost :=
  @Build_ViewGL QFloat QHost true (1 # 1)%Q [].

(** The cache range [1, 5] shown whole with lines drawn in a custom color,
    current frame 3. *)
Definition custom_lines_over_1_5 : QMemory :=
  at_frame 3 (show_range 1 5 1 0) (cached_path 1 5 12).

(** ** Running the model *)

Section Runs.
Context {FL : CFloat} {H : Host}.

Lemma add_calls_nil (m : Memory) : add_calls [] m = m.
Proof.
  destruct m as [sc o pc a mp [lw ps cs]].
  unfold add_calls, set_gpu; simpl. now rewrite app_nil_r.
Qed.

Lemma add_calls_app (l1 l2 : list gpu_call) (m : Memory) :
  add_calls l2 (add_calls l1 m) = add_calls (l1 ++ l2) m.
Proof.
  unfold add_calls, set_gpu; simpl. now rewrite app_assoc.
Qed.

Lemma imm_emits (c : gpu_call) (m : Memory) :
  imm c m = Some (tt, add_calls [c] m).
Proof. reflexivity. Qed.

Lemma visited_succ (n : nat) (i step : Z) :
  visited (S n) i step = i :: visited n (i + step) step.
Proof.
  unfold visited. simpl. f_equal; [lia |].
  rewrite <- seq_shift, map_map. apply map_ext. intros k. lia.
Qed.

Lemma visited_length (n : nat) (i step : Z) : length (visited n i step) = n.
Proof. unfold visited. now rewrite length_map, length_seq. Qed.

Lemma visited_unit (n : nat) : visited n 0 1 = map Z.of_nat (seq 0 n).
Proof. unfold visited. apply map_ext. intros k. lia. Qed.

Lemma in_visited (n : nat) (i step x : Z) :
  In x (visited n i step) <->
  exists k, 0 <= k < Z.of_nat n /\ x = i + k * step.
Proof.
  unfold visited. rewrite in_map_iff. split.
  - intros (k & <- & Hk). apply in_seq in Hk. exists (Z.of_nat k). lia.
  - intros (k & Hk & ->). exists (Z.to_nat k).
    split; [rewrite Z2Nat.id by lia; reflexivity | apply in_seq; lia].
Qed.

Lemma for_loop_done (fuel : nat) (i len step : Z) (body : Z -> M unit) :
  len <= i -> for_loop fuel i len step body = ret tt.
Proof.
  intros Hi. assert (E : (i <? len) = false) by lia.
  destruct fuel; simpl; now rewrite E.
Qed.

(** A loop whose body only logs calls logs them for the visited indices, in
    order, provided the step is positive and the fuel covers the rounds. *)
Lemma for_loop_emits (inv : Memory -> Prop) (body : Z -> M unit)
    (g : Z -> list gpu_call) (len step : Z) :
  1 <= step ->
  (forall l m, inv m -> inv (add_calls l m)) ->
  (forall i m, 0 <= i < len -> inv m ->
     body i m = Some (tt, add_calls (g i) m)) ->
  forall (n fuel : nat) (i : Z) (m : Memory),
    0 <= i -> (n <= fuel)%nat ->
    len <= i + Z.of_nat n * step ->
    (forall k, (k < n)%nat -> i + Z.of_nat k * step < len) ->
    inv m ->
    for_loop fuel i len step body m
    = Some (tt, add_calls (flat_map g (visited n i step)) m).
Proof.
  intros Hstep Hinv Hbody n.
  induction n as [| n IH]; intros fuel i m Hi Hfuel Hend Hin Hm.
  - rewrite for_loop_done by lia. unfold ret. simpl.
    now rewrite add_calls_nil.
  - destruct fuel as [| fuel]; [lia |].
    assert (Hlt : i < len) by (specialize (Hin 0%nat); lia).
    simpl for_loop. assert (E : (i <? len) = true) by lia. rewrite E.
    unfold bind at 1. rewrite Hbody by (auto; lia).
    rewrite (IH fuel (i + step) (add_calls (g i) m)); auto; try lia.
    + rewrite add_calls_app, visited_succ. reflexivity.
    + intros k Hk. specialize (Hin (S k)). lia.
Qed.

(** With a step below one the loop never leaves its range. *)
Lemma for_loop_stuck (body : Z -> M unit) (len step : Z) :
  step <= 0 ->
  (forall i m, exists m', body i m = Some (tt, m')) ->
  forall (fuel : nat) (i : Z) (m : Memory),
    i < len -> for_loop fuel i len step body m = None.
Proof.
  intros Hstep Hbody fuel.
  induction fuel as [| fuel IH]; intros i m Hi; simpl;
    assert (E : (i <? len) = true) by lia; rewrite E.
  - reflexivity.
  - unfold bind. destruct (Hbody i m) as [m' ->]. apply IH. lia.
Qed.

(** The step count of the source is the ceiling of [len / stepsize]. *)
Lemma step_count_ceiling (len stepsize : Z) :
  0 < len -> 1 <= stepsize ->
  let n := step_count len stepsize in
  (n - 1) * stepsize < len <= n * stepsize /\ 1 <= n <= len.
Proof.
  intros Hlen Hstep n. subst n. unfold step_count.
  rewrite Z.quot_div_nonneg by lia.
  pose proof (Z.div_mod (len + stepsize - 1) stepsize ltac:(lia)) as E.
  pose proof (Z.mod_pos_bound (len + stepsize - 1) stepsize ltac:(lia)) as B.
  set (q := (len + stepsize - 1) / stepsize) in *.
  assert (1 <= q) by nia.
  split; [nia |]. split; [lia | nia].
Qed.

Lemma SET_INTENSITY_run (A B C : Z) (min max : float) (m : Memory) :
  C - A <> 0 ->
  SET_INTENSITY A B C min max m = Some (intensity_of A B C min max, m).
Proof.
  intros Hne. unfold SET_INTENSITY, int_div, bind.
  destruct (Z.eqb_spec (C - A) 0) as [E | _]; [contradiction | reflexivity].
Qed.

(** The divisors of SET_INTENSITY are not zero: the path has a custom color,
    or the range bound of the side the frame lies on differs from CFRA. *)
Definition color_defined (CFRA flag i sfra efra : Z) : Prop :=
  test_flag flag MOTIONPATH_FLAG_CUSTOM = true \/
  ((sfra + i < CFRA -> CFRA - sfra <> 0) /\
   (sfra + i > CFRA -> efra - CFRA <> 0)).

Lemma color_defined_in_range (CFRA flag i sfra efra : Z) :
  0 <= i < efra - sfra -> color_defined CFRA flag i sfra efra.
Proof. intros Hi. right. lia. Qed.

Lemma set_motion_path_color_emits (i sel sfra efra : Z)
    (prev_color frame_color next_color : vec3) (a : attrib) (m : Memory) :
  color_defined (cfra (scene m)) (mp_flag (mpath m)) i sfra efra ->
  set_motion_path_color i sel sfra efra prev_color frame_color next_color a m
  = Some (tt, add_calls
                [immAttrib3ubv a
                   (vertex_color (cfra (scene m)) (mp_flag (mpath m))
                      i sel sfra efra prev_color frame_color next_color)] m).
Proof.
  intros Hdef.
  unfold set_motion_path_color, vertex_color, bind, get.
  destruct (Z.ltb_spec (sfra + i) (cfra (scene m))) as [Hlt | Hge].
  - destruct (test_flag (mp_flag (mpath m)) MOTIONPATH_FLAG_CUSTOM) eqn:Ec.
    + reflexivity.
    + destruct Hdef as [Hc | [Hp _]]; [congruence |].
      destruct (negb (sel =? 0)); cbv iota;
        rewrite SET_INTENSITY_run by (apply Hp; lia); reflexivity.
  - destruct (Z.gtb_spec (sfra + i) (cfra (scene m))) as [Hgt | Hle].
    + destruct (test_flag (mp_flag (mpath m)) MOTIONPATH_FLAG_CUSTOM) eqn:Ec.
      * reflexivity.
      * destruct Hdef as [Hc | [_ Hn]]; [congruence |].
        destruct (negb (sel =? 0)); cbv iota;
          rewrite SET_INTENSITY_run by (apply Hn; lia); reflexivity.
    + destruct (test_flag (mp_flag (mpath m)) MOTIONPATH_FLAG_CUSTOM);
        reflexivity.
Qed.

Lemma run_bind {A B} (c : M A) (k : A -> M B) (m : Memory) :
  bind c k m = match c m with Some (a, m') => k a m' | None => None end.
Proof. reflexivity. Qed.

Lemma run_get {A B} (f : Memory -> A) (k : A -> M B) (m : Memory) :
  bind (get f) k m = k (f m) m.
Proof. reflexivity. Qed.

Lemma run_imm {B} (c : gpu_call) (k : unit -> M B) (m : Memory) :
  bind (imm c) k m = k tt (add_calls [c] m).
Proof. reflexivity. Qed.

Lemma flat_map_single {A B} (f : A -> B) (l : list A) :
  flat_map (fun x => [f x]) l = map f l.
Proof. induction l as [| x l IH]; simpl; congruence. Qed.

(** The loop of the frame dots (lines 306-308). *)
Lemma dots_loop_run (sind len : Z) (m : Memory) :
  for_loop (Z.to_nat len) 0 len 1
    (fun i => imm (immVertex3fv attr_pos (sind + i))) m
  = Some (tt, add_calls
                (map (fun i => immVertex3fv attr_pos (sind + i))
                     (visited (Z.to_nat len) 0 1)) m).
Proof.
  rewrite <- flat_map_single.
  apply (for_loop_emits (fun _ => True)); auto; lia.
Qed.

(** The loop of the step dots (lines 322-324). *)
Lemma step_loop_run (sind len stepsize : Z) (m : Memory) :
  0 < len -> 1 <= stepsize ->
  for_loop (Z.to_nat len) 0 len stepsize
    (fun i => imm (immVertex3fv attr_pos (sind + i))) m
  = Some (tt, add_calls
                (map (fun i => immVertex3fv attr_pos (sind + i))
                     (visited (Z.to_nat (step_count len stepsize)) 0 stepsize)) m).
Proof.
  intros Hlen Hstep.
  destruct (step_count_ceiling Hlen Hstep) as [[Hlo Hhi] Hn].
  rewrite <- flat_map_single.
  apply (for_loop_emits (fun _ => True)); auto; try lia.
  intros k Hk. nia.
Qed.

(** The loop of the line strip (lines 276-284). *)
Lemma line_loop_run (m0 : Memory) (sfra efra : Z) (p f n : vec3) (m : Memory) :
  scene m = scene m0 -> mpath m = mpath m0 ->
  pchan m = pchan m0 -> ob m = ob m0 ->
  for_loop (Z.to_nat (efra - sfra)) 0 (efra - sfra) 1
    (fun i =>
       sel <- get selection ;;
       set_motion_path_color i sel sfra efra p f n attr_color ;;
       imm (immVertex3fv attr_pos (sfra - start_frame (mpath m0) + i))) m
  = Some (tt, add_calls
                (flat_map
                   (fun i =>
                      [immAttrib3ubv attr_color
                         (vertex_color (cfra (scene m0)) (mp_flag (mpath m0))
                            i (selection m0) sfra efra p f n);
                       immVertex3fv attr_pos (sfra - start_frame (mpath m0) + i)])
                   (visited (Z.to_nat (efra - sfra)) 0 1)) m).
Proof.
  intros Hs Hmp Hpc Hob.
  apply (for_loop_emits
           (fun m' => scene m' = scene m0 /\ mpath m' = mpath m0 /\
                      pchan m' = pchan m0 /\ ob m' = ob m0)); auto; try lia.
  - intros i m' Hi (Hs' & Hmp' & Hpc' & Hob').
    rewrite run_get, run_bind, set_motion_path_color_emits
      by (apply color_defined_in_range; lia).
    rewrite imm_emits, add_calls_app.
    assert (Esel : selection m' = selection m0)
      by (unfold selection; now rewrite Hpc', Hob').
    now rewrite Esel, Hs', Hmp'.
Qed.

(** Either early return leaves the memory as it was. *)
Lemma draw_skips (m : Memory) :
  reaches_drawing m = false ->
  draw_motion_path_instance m = Some (tt, m).
Proof.
  unfold reaches_drawing, resolved_range, draw_motion_path_instance.
  unfold gl_GetFloatv_LINE_WIDTH. rewrite !run_get.
  destruct (clamp_range (mpath m) (frame_range (cfra (scene m)) (avs m)))
    as [sfra efra].
  destruct ((sfra >? end_frame (mpath m)) || (efra <? start_frame (mpath m)));
    [reflexivity |].
  destruct ((efra - sfra <=? 0) || is_null (points (mpath m)));
    [reflexivity | discriminate].
Qed.

Lemma run_LineWidth {B} (w : float) (k : unit -> M B) (m : Memory) :
  bind (gl_LineWidth w) k m
  = k tt (set_gpu {| line_width := w; point_size := point_size (gpu m);
                     calls := calls (gpu m) ++ [glLineWidth w] |} m).
Proof. reflexivity. Qed.

Lemma run_PointSize {B} (s : float) (k : unit -> M B) (m : Memory) :
  bind (gl_PointSize s) k m
  = k tt (set_gpu {| line_width := line_width (gpu m); point_size := s;
                     calls := calls (gpu m) ++ [glPointSize s] |} m).
Proof. reflexivity. Qed.

Lemma run_bind_bind {A B C} (c : M A) (k : A -> M B) (k' : B -> M C)
    (m : Memory) :
  bind (bind c k) k' m = bind c (fun a => bind (k a) k') m.
Proof. unfold bind. destruct (c m) as [[a m'] |]; reflexivity. Qed.

Lemma run_ret {A B} (a : A) (k : A -> M B) (m : Memory) :
  bind (ret a) k m = k a m.
Proof. reflexivity. Qed.

Lemma run_loop {B} (fuel : nat) (i len step : Z) (body : Z -> M unit)
    (k : unit -> M B) (m m' : Memory) :
  for_loop fuel i len step body m = Some (tt, m') ->
  bind (for_loop fuel i len step body) k m = k tt m'.
Proof. intros E. unfold bind. now rewrite E. Qed.

Lemma run_int_div {B} (a b : Z) (k : Z -> M B) (m : Memory) :
  b <> 0 -> bind (int_div a b) k m = k (Z.quot a b) m.
Proof.
  intros Hb. unfold int_div.
  destruct (Z.eqb_spec b 0); [contradiction | reflexivity].
Qed.

Ltac norm_mem :=
  unfold add_calls, set_gpu;
  cbn [gpu calls line_width point_size scene ob pchan avs mpath].

Ltac run_calls :=
  repeat (first
    [ rewrite run_bind_bind | rewrite run_get | rewrite run_imm
    | rewrite run_LineWidth | rewrite run_PointSize | rewrite run_ret ];
    norm_mem).

(** A call that reaches the drawing stage with a positive step returns in
    the memory [drawn m]. *)
Lemma draw_reaches (m : Memory) :
  reaches_drawing m = true -> 1 <= path_step (avs m) ->
  draw_motion_path_instance m = Some (tt, drawn m).
Proof.
  unfold reaches_drawing, drawn, resolved_range, draw_motion_path_instance.
  unfold gl_GetFloatv_LINE_WIDTH. rewrite !run_get.
  destruct (clamp_range (mpath m) (frame_range (cfra (scene m)) (avs m)))
    as [sfra efra].
  intros Hreach Hstep.
  apply andb_prop in Hreach. destruct Hreach as [Hin Hlen].
  apply negb_true_iff in Hin, Hlen. rewrite Hin, Hlen.
  apply orb_false_elim in Hlen. destruct Hlen as [Hlen Hpts].
  assert (Hpos : 0 < efra - sfra) by lia.
  unfold line_pass, frame_dots_pass, step_dots_pass, cframe_pass,
    cframe_marker_drawn, strip_color.
  destruct (test_flag (mp_flag (mpath m)) MOTIONPATH_FLAG_LINES);
    run_calls;
    [ erewrite run_loop
        by (apply line_loop_run with (m0 := m); reflexivity);
      run_calls; norm_mem
    | ];
    (erewrite run_loop by apply dots_loop_run);
    run_calls; norm_mem;
    (destruct (test_flag (mp_flag (mpath m)) MOTIONPATH_FLAG_CUSTOM));
    run_calls; rewrite run_int_div by lia; run_calls;
    (erewrite run_loop by (apply step_loop_run; lia));
    run_calls; norm_mem;
    (destruct (test_flag (path_viewflag (avs m)) MOTIONPATH_VIEW_KFRAS
               && (sfra <? cfra (scene m)) && (cfra (scene m) <=? efra)));
    run_calls; norm_mem; unfold store_imat; norm_mem;
    repeat rewrite <- app_assoc; reflexivity.
Qed.

Lemma run_loop_stuck {B} (fuel : nat) (i len step : Z) (body : Z -> M unit)
    (k : unit -> M B) (m : Memory) :
  for_loop fuel i len step body m = None ->
  bind (for_loop fuel i len step body) k m = None.
Proof. intros E. unfold bind. now rewrite E. Qed.

(** With a step below one, a call that reaches the drawing stage does not
    return: the division is undefined for step 0 and the loop of the step
    dots never ends for a negative step. *)
Lemma draw_diverges (m : Memory) :
  reaches_drawing m = true -> path_step (avs m) <= 0 ->
  draw_motion_path_instance m = None.
Proof.
  unfold reaches_drawing, resolved_range, draw_motion_path_instance.
  unfold gl_GetFloatv_LINE_WIDTH. rewrite !run_get.
  destruct (clamp_range (mpath m) (frame_range (cfra (scene m)) (avs m)))
    as [sfra efra].
  intros Hreach Hstep.
  apply andb_prop in Hreach. destruct Hreach as [Hin Hlen].
  apply negb_true_iff in Hin, Hlen. rewrite Hin, Hlen.
  apply orb_false_elim in Hlen. destruct Hlen as [Hlen Hpts].
  assert (Hpos : 0 < efra - sfra) by lia.
  destruct (test_flag (mp_flag (mpath m)) MOTIONPATH_FLAG_LINES);
    run_calls;
    [ erewrite run_loop
        by (apply line_loop_run with (m0 := m); reflexivity);
      run_calls; norm_mem
    | ];
    (erewrite run_loop by apply dots_loop_run);
    run_calls; norm_mem;
    (destruct (test_flag (mp_flag (mpath m)) MOTIONPATH_FLAG_CUSTOM));
    run_calls;
    (destruct (Z.eq_dec (path_step (avs m)) 0) as [E0 | Hne];
     [ rewrite E0; reflexivity
     | rewrite run_int_div by assumption; run_calls;
       apply run_loop_stuck, for_loop_stuck; try lia;
       intros i m1; eexists; reflexivity ]).
Qed.

Lemma emitted_skips (m : Memory) :
  reaches_drawing m = false -> emitted m = Some [].
Proof.
  intros Hskip. unfold emitted. rewrite draw_skips by assumption.
  now rewrite skipn_all.
Qed.

Lemma emitted_drawn (m : Memory) :
  reaches_drawing m = true -> 1 <= path_step (avs m) ->
  emitted m
  = Some (line_pass m (fst (resolved_range m)) (snd (resolved_range m))
          ++ frame_dots_pass m (fst (resolved_range m)) (snd (resolved_range m))
          ++ step_dots_pass m (fst (resolved_range m)) (snd (resolved_range m))
          ++ cframe_pass m (fst (resolved_range m)) (snd (resolved_range m))
          ++ [immUnbindProgram]).
Proof.
  intros Hreach Hstep. unfold emitted.
  rewrite draw_reaches by assumption. unfold drawn.
  destruct (resolved_range m) as [sfra efra]. cbn [gpu calls fst snd].
  rewrite skipn_app, skipn_all, Nat.sub_diag. reflexivity.
Qed.

(** The guard of line 254 makes the guard of line 247 redundant. *)
Lemma reaches_drawing_iff (m : Memory) :
  reaches_drawing m = true <->
  fst (resolved_range m) < snd (resolved_range m) /\ points (mpath m) <> None.
Proof.
  unfold reaches_drawing, resolved_range, clamp_range.
  destruct (frame_range (cfra (scene m)) (avs m)) as [rs re].
  cbn [fst snd].
  destruct (points (mpath m)) as [pts |]; cbn [is_null].
  - rewrite orb_false_r. split.
    + intros Hr. apply andb_prop in Hr. destruct Hr as [_ Hr].
      apply negb_true_iff in Hr. split; [lia | discriminate].
    + intros [Hlt _]. apply andb_true_intro. split; apply negb_true_iff.
      * apply orb_false_intro;
          destruct (rs <? start_frame (mpath m)) eqn:E1;
          destruct (re >? end_frame (mpath m)) eqn:E2; lia.
      * lia.
  - rewrite orb_true_r, andb_false_r. split; [discriminate |].
    intros [_ Hn]. now contradiction Hn.
Qed.

End Runs.

(** ** Range resolver *)

Section RangeResolver.
Context {FL : CFloat} {H : Host}.

Lemma clamp_range_bounds (mp : bMotionPath) (rs re : Z) :
  let r := clamp_range mp (rs, re) in
  fst r = Z.max rs (start_frame mp) /\ snd r = Z.min re (end_frame mp).
Proof.
  unfold clamp_range. cbn [fst snd].
  destruct (rs <? start_frame mp) eqn:E1;
    destruct (re >? end_frame mp) eqn:E2; lia.
Qed.

(** C1.  For every requested window that overlaps the cached range, the
    resolved draw range [sfra, efra] is not empty, lies inside
    [start_frame, end_frame] and inside the requested window.  For the cache
    range [1, 100] and the requested window [90, 120] it is [90, 100]. *)
Theorem resolved_range_within_cache_and_window (m : Memory) :
  overlaps (frame_range (cfra (scene m)) (avs m)) (mpath m) ->
  fst (resolved_range m) <= snd (resolved_range m) /\
  within (resolved_range m) (cache_range (mpath m)) /\
  within (resolved_range m) (frame_range (cfra (scene m)) (avs m)) /\
  (cache_range (mpath m) = (1, 100) ->
   frame_range (cfra (scene m)) (avs m) = (90, 120) ->
   resolved_range m = (90, 100)).
Proof.
  unfold resolved_range, overlaps, within, cache_range.
  destruct (frame_range (cfra (scene m)) (avs m)) as [rs re].
  destruct (clamp_range_bounds (mpath m) rs re) as [Hs He].
  cbn [fst snd] in *. intros (f & Hreq & Hcache).
  repeat split; try lia.
  intros Ec Er. injection Ec as Es Ee. injection Er as -> ->.
  unfold clamp_range. rewrite Es, Ee. reflexivity.
Qed.

(** C2.  For every requested window lying entirely outside
    [start_frame, end_frame], the call returns with the memory untouched:
    no call is issued, nothing signals an error, and the resolved range is
    empty. *)
Theorem window_outside_cache_is_noop (m : Memory) :
  outside (frame_range (cfra (scene m)) (avs m)) (mpath m) ->
  draw_motion_path_instance m = Some (tt, m) /\
  emitted m = Some [] /\
  snd (resolved_range m) < fst (resolved_range m).
Proof.
  intros Hout.
  assert (Hempty : snd (resolved_range m) < fst (resolved_range m)).
  { revert Hout. unfold resolved_range, outside.
    destruct (frame_range (cfra (scene m)) (avs m)) as [rs re].
    destruct (clamp_range_bounds (mpath m) rs re) as [Hs He].
    cbn [fst snd] in *. lia. }
  assert (Hskip : reaches_drawing m = false).
  { destruct (reaches_drawing m) eqn:E; [| reflexivity].
    apply reaches_drawing_iff in E. lia. }
  auto using draw_skips, emitted_skips.
Qed.

(** C10.  When the resolved sfra equals the resolved efra (so that
    len = efra - sfra is 0), the call returns before issuing any call, just
    as it does when [mpath->points] is NULL. *)
Theorem single_frame_range_is_noop (m : Memory) :
  fst (resolved_range m) = snd (resolved_range m) \/ points (mpath m) = None ->
  draw_motion_path_instance m = Some (tt, m) /\ emitted m = Some [].
Proof.
  intros Hcase.
  assert (Hskip : reaches_drawing m = false).
  { destruct (reaches_drawing m) eqn:E; [| reflexivity].
    apply reaches_drawing_iff in E. destruct E as [Hlt Hpts].
    destruct Hcase; [lia | contradiction]. }
  auto using draw_skips, emitted_skips.
Qed.

End RangeResolver.

(** C1 at the cache range [1, 100] and the requested window [90, 120]. *)
Lemma resolved_range_within_cache_and_window_witness :
  resolved_range (at_frame 95 (show_range 90 120 1 0) (cached_path 1 100 0))
  = (90, 100).
Proof.
  refine (proj2 (proj2 (proj2
    (@resolved_range_within_cache_and_window QFloat QHost
       (at_frame 95 (show_range 90 120 1 0) (cached_path 1 100 0)) _)))
    eq_refl eq_refl).
  exists 95. vm_compute. intuition discriminate.
Defined.

(** C2 at the cache range [1, 100] and the requested window [150, 200]. *)
Lemma window_outside_cache_is_noop_witness :
  emitted (at_frame 160 (show_range 150 200 1 2) (cached_path 1 100 12))
  = Some [] /\
  resolved_range (at_frame 160 (show_range 150 200 1 2) (cached_path 1 100 12))
  = (150, 100).
Proof.
  split; [| reflexivity].
  refine (proj1 (proj2
    (@window_outside_cache_is_noop QFloat QHost
       (at_frame 160 (show_range 150 200 1 2) (cached_path 1 100 12)) _))).
  right. vm_compute. reflexivity.
Defined.

(** C10 at the cache range [1, 100] and the requested window [100, 120]. *)
Lemma single_frame_range_is_noop_witness :
  resolved_range (at_frame 100 (show_range 100 120 1 2) (cached_path 1 100 12))
  = (100, 100) /\
  emitted (at_frame 100 (show_range 100 120 1 2) (cached_path 1 100 12))
  = Some [].
Proof.
  split; [reflexivity |].
  refine (proj2
    (@single_frame_range_is_noop QFloat QHost
       (at_frame 100 (show_range 100 120 1 2) (cached_path 1 100 12)) _)).
  left. reflexivity.
Defined.

(** ** Per-vertex colorizer *)

Section Colorizer.
Context {FL : CFloat} {H : Host}.

(** C6.  [set_motion_path_color] is deterministic and stateless: two calls
    with the same arguments, in memories that agree on the current frame and
    on the custom-color flag, either are both undefined (a zero divisor in
    SET_INTENSITY) or both send the same color; all a call leaves in the
    memory is that one logged [immAttrib3ubv]. *)
Theorem set_motion_path_color_deterministic (i sel sfra efra : Z)
    (prev_color frame_color next_color : vec3) (a : attrib) (m1 m2 : Memory) :
  cfra (scene m1) = cfra (scene m2) ->
  test_flag (mp_flag (mpath m1)) MOTIONPATH_FLAG_CUSTOM
  = test_flag (mp_flag (mpath m2)) MOTIONPATH_FLAG_CUSTOM ->
  (set_motion_path_color i sel sfra efra prev_color frame_color next_color a m1
   = None /\
   set_motion_path_color i sel sfra efra prev_color frame_color next_color a m2
   = None) \/
  (exists c : uchar3,
     set_motion_path_color i sel sfra efra prev_color frame_color next_color a m1
     = Some (tt, add_calls [immAttrib3ubv a c] m1) /\
     set_motion_path_color i sel sfra efra prev_color frame_color next_color a m2
     = Some (tt, add_calls [immAttrib3ubv a c] m2)).
Proof.
  intros Hcfra Hflag.
  unfold set_motion_path_color, SET_INTENSITY, int_div, bind, get.
  rewrite Hcfra, Hflag.
  destruct (sfra + i <? cfra (scene m2));
    [| destruct (sfra + i >? cfra (scene m2))];
    destruct (test_flag (mp_flag (mpath m2)) MOTIONPATH_FLAG_CUSTOM);
    try (right; eexists; split; reflexivity);
    destruct (negb (sel =? 0));
    try (right; eexists; split; reflexivity);
    match goal with
    | |- context [?x =? 0] => destruct (x =? 0)
    end;
    first [ left; split; reflexivity | right; eexists; split; reflexivity ].
Qed.

End Colorizer.

(** ** Emission passes and side effects *)

Ltac in_cases Hin :=
  repeat match type of Hin with
  | In _ (_ ++ _) => apply in_app_or in Hin; destruct Hin as [Hin | Hin]
  | In _ (map _ _) => apply in_map_iff in Hin; destruct Hin as (? & Hin & _)
  | In _ (flat_map _ _) =>
      apply in_flat_map in Hin; destruct Hin as (? & _ & Hin)
  | In _ (_ :: _) => destruct Hin as [Hin | Hin]
  | In _ [] => destruct Hin
  | In _ (if ?b then _ else _) => destruct b
  | (if ?b then _ else _) = _ => destruct b
  end; try discriminate Hin.

Section Emission.
Context {FL : CFloat} {H : Host}.

(** Either a run returns in a known memory or, for a step below one on a
    call that reaches the drawing stage, it does not return. *)
Lemma draw_motion_path_instance_run (m : Memory) :
  draw_motion_path_instance m
  = if reaches_drawing m
    then if 1 <=? path_step (avs m) then Some (tt, drawn m) else None
    else Some (tt, m).
Proof.
  destruct (reaches_drawing m) eqn:Hr.
  - destruct (Z.leb_spec 1 (path_step (avs m))).
    + now apply draw_reaches.
    + apply draw_diverges; [assumption | lia].
  - now apply draw_skips.
Qed.

Lemma step_dot_frames (mp : bMotionPath) (sfra stepsize : Z) (n : nat) :
  map (fun i => immVertex3fv attr_pos (sfra - start_frame mp + i))
      (visited n 0 stepsize)
  = map (fun k => immVertex3fv attr_pos
                    (sample_of_frame mp (sfra + Z.of_nat k * stepsize)))
        (seq 0 n).
Proof.
  unfold visited. rewrite map_map. apply map_ext. intros k.
  unfold sample_of_frame. f_equal. lia.
Qed.

(** C4.  For a resolved range of length L = efra - sfra > 0 and a step
    S = path_step >= 1, the pass of the step dots announces and sends exactly
    n = ceil(L / S) dots, for the frames sfra, sfra + S, ..., sfra + (n-1) S;
    the last one opens the final, possibly partial, group. *)
Theorem step_dots_count_is_ceiling (m : Memory) (sfra efra : Z) :
  resolved_range m = (sfra, efra) ->
  0 < efra - sfra ->
  1 <= path_step (avs m) ->
  points (mpath m) <> None ->
  exists n : nat,
    (Z.of_nat n - 1) * path_step (avs m) < efra - sfra
      <= Z.of_nat n * path_step (avs m) /\
    emitted m
    = Some (line_pass m sfra efra
            ++ frame_dots_pass m sfra efra
            ++ ([if test_flag (mp_flag (mpath m)) MOTIONPATH_FLAG_CUSTOM
                 then immUniformColor3fv (color (mpath m))
                 else immUniformThemeColor TH_TEXT_HI;
                 immBegin GWN_PRIM_POINTS (Z.of_nat n)]
                ++ map (fun k =>
                          immVertex3fv attr_pos
                            (sample_of_frame (mpath m)
                               (sfra + Z.of_nat k * path_step (avs m))))
                       (seq 0 n)
                ++ [immEnd])
            ++ cframe_pass m sfra efra
            ++ [immUnbindProgram]).
Proof.
  intros Hrange Hlen Hstep Hpts.
  assert (Hreach : reaches_drawing m = true)
    by (apply reaches_drawing_iff; rewrite Hrange; cbn [fst snd];
        split; [lia | assumption]).
  destruct (step_count_ceiling Hlen Hstep) as [Hceil Hn].
  exists (Z.to_nat (step_count (efra - sfra) (path_step (avs m)))).
  rewrite Z2Nat.id by lia. split; [exact Hceil |].
  rewrite emitted_drawn by assumption. rewrite Hrange. cbn [fst snd].
  unfold step_dots_pass. now rewrite step_dot_frames.
Qed.

(** X14.  Whatever a run sends as a vertex is the sample of a frame of the
    cache range: its index lies between 0 and end_frame - start_frame. *)
Lemma rendered_samples_within_cache (m : Memory) (l : list gpu_call)
    (a : attrib) (v : Z) :
  emitted m = Some l ->
  In (immVertex3fv a v) l ->
  0 <= v <= end_frame (mpath m) - start_frame (mpath m).
Proof.
  unfold emitted. rewrite draw_motion_path_instance_run.
  destruct (reaches_drawing m) eqn:Hreach.
  - destruct (Z.leb_spec 1 (path_step (avs m))) as [Hstep | Hstep];
      [| discriminate].
    intros E. injection E as <-.
    apply reaches_drawing_iff in Hreach. destruct Hreach as [Hlt _].
    unfold drawn. revert Hlt. unfold resolved_range.
    destruct (frame_range (cfra (scene m)) (avs m)) as [rs re].
    destruct (clamp_range_bounds (mpath m) rs re) as [Hs He].
    destruct (clamp_range (mpath m) (rs, re)) as [sfra efra].
    cbn [fst snd gpu calls] in *. intros Hlt.
    rewrite skipn_app, skipn_all, Nat.sub_diag. cbn [skipn app].
    destruct (step_count_ceiling (len := efra - sfra) ltac:(lia) Hstep)
      as [[Hlo _] _].
    unfold line_pass, frame_dots_pass, step_dots_pass, cframe_pass,
      cframe_marker_drawn.
    intros Hin.
    repeat match type of Hin with
    | In _ (_ ++ _) => apply in_app_or in Hin; destruct Hin as [Hin | Hin]
    | In _ (map _ _) =>
        apply in_map_iff in Hin; destruct Hin as (i & Hin & Hi);
        apply in_visited in Hi; destruct Hi as (k & Hk & ->)
    | In _ (flat_map _ _) =>
        apply in_flat_map in Hin; destruct Hin as (i & Hi & Hin);
        apply in_visited in Hi; destruct Hi as (k & Hk & ->)
    | In _ (_ :: _) => destruct Hin as [Hin | Hin]
    | In _ [] => destruct Hin
    | In _ (if ?b then _ else _) => destruct b eqn:?
    | (if ?b then _ else _) = _ => destruct b
    end; try discriminate Hin; injection Hin as _ <-; try nia.
  - intros E. injection E as <-. rewrite skipn_all. intros [].
Qed.

(** C9.  A call that reaches the drawing stage returns (for a step of at
    least one), and whenever it returns it has overwritten [ob->imat] with
    the inverse of [ob->obmat]; the rest of the object, the motion path and
    the visualization settings are unchanged. *)
Theorem drawing_stores_inverse_matrix (m : Memory) :
  reaches_drawing m = true ->
  (1 <= path_step (avs m) ->
   exists m', draw_motion_path_instance m = Some (tt, m')) /\
  (forall m', draw_motion_path_instance m = Some (tt, m') ->
     imat (ob m') = invert_m4_m4 (obmat (ob m)) /\
     obmat (ob m') = obmat (ob m) /\
     ob_flag (ob m') = ob_flag (ob m) /\
     mpath m' = mpath m /\
     avs m' = avs m).
Proof.
  intros Hreach. rewrite draw_motion_path_instance_run, Hreach.
  destruct (Z.leb_spec 1 (path_step (avs m))) as [Hstep | Hstep].
  - split; [intros _; eexists; reflexivity |].
    intros m' E. injection E as <-. unfold drawn.
    destruct (resolved_range m). cbn. auto.
  - split; [lia | discriminate].
Qed.

Lemma cframe_color_only_in_marker (m : Memory) (sfra efra : Z) :
  In (immUniformThemeColor TH_CFRAME)
     (line_pass m sfra efra ++ frame_dots_pass m sfra efra
      ++ step_dots_pass m sfra efra ++ cframe_pass m sfra efra
      ++ [immUnbindProgram]) <->
  cframe_marker_drawn m sfra efra = true.
Proof.
  unfold line_pass, frame_dots_pass, step_dots_pass, cframe_pass. split.
  - intros Hin. destruct (cframe_marker_drawn m sfra efra); [reflexivity |].
    in_cases Hin.
  - intros ->. rewrite !in_app_iff. do 3 right. left. simpl. auto.
Qed.

(** The guard of lines 331-332 as the code has it: for a step of at least
    one, the current-frame marker is emitted exactly when [mpath->points] is
    not NULL, the keyframe-view flag is set and sfra < CFRA <= efra. *)
Lemma cframe_marker_guard (m : Memory) :
  1 <= path_step (avs m) ->
  (cframe_marker_emitted m <->
   points (mpath m) <> None /\
   test_flag (path_viewflag (avs m)) MOTIONPATH_VIEW_KFRAS = true /\
   fst (resolved_range m) < cfra (scene m) <= snd (resolved_range m)).
Proof.
  intros Hstep. unfold cframe_marker_emitted. split.
  - intros (l & E & Hin). destruct (reaches_drawing m) eqn:Hreach.
    + rewrite emitted_drawn in E by assumption. injection E as <-.
      apply cframe_color_only_in_marker in Hin.
      apply reaches_drawing_iff in Hreach.
      unfold cframe_marker_drawn in Hin.
      apply andb_prop in Hin. destruct Hin as [Hin Hle].
      apply andb_prop in Hin. destruct Hin as [Hflag Hlt].
      repeat split; try tauto; lia.
  + rewrite emitted_skips in E by assumption. injection E as <-.
      destruct Hin.
  - intros (Hpts & Hflag & Hlt & Hle).
    assert (Hreach : reaches_drawing m = true)
      by (apply reaches_drawing_iff; split; [lia | assumption]).
    eexists. split; [apply emitted_drawn; assumption |].
    apply cframe_color_only_in_marker. unfold cframe_marker_drawn.
    rewrite Hflag. apply andb_true_intro. split; lia.
Qed.

(** C3, amended.  For a step of at least one, the oversized current-frame
    marker dot is emitted if and only if [mpath->points] is not NULL, the
    keyframe-view flag MOTIONPATH_VIEW_KFRAS is set and sfra < CFRA <= efra
    for the resolved range: the range is open at sfra, so a current frame
    equal to sfra gets no marker. *)
Theorem cframe_marker_emitted_exactly (m : Memory) :
  1 <= path_step (avs m) ->
  (cframe_marker_emitted m <->
   points (mpath m) <> None /\
   test_flag (path_viewflag (avs m)) MOTIONPATH_VIEW_KFRAS = true /\
   fst (resolved_range m) < cfra (scene m) <= snd (resolved_range m)) /\
  (cfra (scene m) = fst (resolved_range m) -> ~ cframe_marker_emitted m).
Proof.
  intros Hstep. pose proof (cframe_marker_guard m Hstep) as Hguard.
  split; [exact Hguard |].
  intros Heq Hem. apply Hguard in Hem.
  destruct Hem as (_ & _ & Hlt & _). lia.
Qed.

Lemma vertices_of_strip (c : Z -> uchar3) (g : Z -> Z) (fs : list Z)
    (rest : list gpu_call) :
  vertices_until_end
    (flat_map (fun f => [immAttrib3ubv attr_color (c f);
                         immVertex3fv attr_pos (g f)]) fs
     ++ immEnd :: rest)
  = map g fs.
Proof. induction fs as [| f fs IH]; simpl; congruence. Qed.

Lemma line_strip_of_none (l : list gpu_call) :
  (forall n, ~ In (immBegin GWN_PRIM_LINE_STRIP n) l) ->
  line_strip_of l = None.
Proof.
  induction l as [| c l IH]; intros Hno; [reflexivity |].
  assert (Hl : line_strip_of l = None)
    by (apply IH; intros n Hin; apply (Hno n); now right).
  destruct c as [| | | | | p n | | | | | |]; simpl; auto.
  destruct p; auto. exfalso. apply (Hno n). now left.
Qed.

Lemma no_strip_after_line_pass (m : Memory) (sfra efra : Z) :
  line_strip_of (frame_dots_pass m sfra efra ++ step_dots_pass m sfra efra
                 ++ cframe_pass m sfra efra ++ [immUnbindProgram]) = None.
Proof.
  apply line_strip_of_none. intros n Hin.
  unfold frame_dots_pass, step_dots_pass, cframe_pass in Hin.
  in_cases Hin.
Qed.

Lemma line_pass_frames (m : Memory) (sfra efra : Z) :
  flat_map (fun i => [immAttrib3ubv attr_color (strip_color m sfra efra i);
                      immVertex3fv attr_pos (sfra - start_frame (mpath m) + i)])
           (visited (Z.to_nat (efra - sfra)) 0 1)
  = flat_map (fun f =>
                [immAttrib3ubv attr_color (strip_color m sfra efra (f - sfra));
                 immVertex3fv attr_pos (sample_of_frame (mpath m) f)])
             (drawn_frames sfra efra).
Proof.
  unfold drawn_frames, visited. rewrite !flat_map_concat_map, !map_map.
  f_equal. apply map_ext. intros k. unfold sample_of_frame.
  replace (sfra + Z.of_nat k * 1 - sfra) with (0 + Z.of_nat k * 1) by lia.
  replace (sfra + Z.of_nat k * 1 - start_frame (mpath m))
    with (sfra - start_frame (mpath m) + (0 + Z.of_nat k * 1)) by lia.
  reflexivity.
Qed.

Lemma in_drawn_frames (sfra efra f : Z) :
  In f (drawn_frames sfra efra) <-> sfra <= f < efra.
Proof.
  unfold drawn_frames. rewrite in_visited. split.
  - intros (k & Hk & ->). lia.
  - intros Hf. exists (f - sfra). lia.
Qed.

(** The log of a call that draws the line strip. *)
Lemma emitted_with_lines (m : Memory) (sfra efra : Z) :
  resolved_range m = (sfra, efra) ->
  reaches_drawing m = true -> 1 <= path_step (avs m) ->
  test_flag (mp_flag (mpath m)) MOTIONPATH_FLAG_LINES = true ->
  emitted m
  = Some ([glLineWidth (f_of_int (line_thickness (mpath m)));
           GWN_vertformat_attr_add attr_pos;
           GWN_vertformat_attr_add attr_color;
           immBindBuiltinProgram GPU_SHADER_3D_SMOOTH_COLOR;
           immBegin GWN_PRIM_LINE_STRIP (efra - sfra)]
          ++ flat_map (fun f =>
               [immAttrib3ubv attr_color (strip_color m sfra efra (f - sfra));
                immVertex3fv attr_pos (sample_of_frame (mpath m) f)])
               (drawn_frames sfra efra)
          ++ immEnd :: immUnbindProgram :: glLineWidth (line_width (gpu m))
             :: (frame_dots_pass m sfra efra ++ step_dots_pass m sfra efra
                 ++ cframe_pass m sfra efra ++ [immUnbindProgram])).
Proof.
  intros Hrange Hreach Hstep Hflag.
  rewrite emitted_drawn by assumption. rewrite Hrange. cbn [fst snd].
  unfold line_pass. rewrite Hflag, line_pass_frames.
  rewrite <- !app_assoc. reflexivity.
Qed.

Lemma strip_color_custom (m : Memory) (sfra efra f : Z) :
  test_flag (mp_flag (mpath m)) MOTIONPATH_FLAG_CUSTOM = true ->
  strip_color m sfra efra (f - sfra)
  = rgb_float_to_uchar (custom_scaled (color (mpath m)) (cfra (scene m)) f).
Proof.
  intros Hcustom. unfold strip_color, vertex_color, custom_scaled.
  rewrite Hcustom. replace (sfra + (f - sfra)) with f by lia.
  rewrite Z.gtb_ltb. unfold mul_v3_v3fl, copy_v3_v3.
  destruct (color (mpath m)) as [[r g] b].
  destruct (f <? cfra (scene m)), (cfra (scene m) <? f); reflexivity.
Qed.

(** C5.  When the path carries MOTIONPATH_FLAG_CUSTOM,
    [set_motion_path_color] sends the byte encoding of the color it is
    handed for the side of CFRA the frame lies on, and
    [draw_motion_path_instance] hands it the base color scaled componentwise
    by 0.25, by 0.5 and unscaled (lines 207-214): every vertex of the line
    strip of a run is sent in 0.25 times the base color for a frame before
    the current frame, 0.5 times for the current frame and 1.0 times for a
    frame after it. *)
Theorem custom_color_scales_base_color (m : Memory) (sfra efra : Z) :
  test_flag (mp_flag (mpath m)) MOTIONPATH_FLAG_CUSTOM = true ->
  (forall (i sel s e : Z) (prev_color frame_color next_color : vec3)
          (a : attrib),
     set_motion_path_color i sel s e prev_color frame_color next_color a m
     = Some (tt, add_calls
                   [immAttrib3ubv a
                      (rgb_float_to_uchar
                         (if s + i <? cfra (scene m) then prev_color
                          else if cfra (scene m) <? s + i then next_color
                          else frame_color))] m)) /\
  (test_flag (mp_flag (mpath m)) MOTIONPATH_FLAG_LINES = true ->
   resolved_range m = (sfra, efra) ->
   reaches_drawing m = true ->
   1 <= path_step (avs m) ->
   exists rest,
     emitted m
     = Some ([glLineWidth (f_of_int (line_thickness (mpath m)));
              GWN_vertformat_attr_add attr_pos;
              GWN_vertformat_attr_add attr_color;
              immBindBuiltinProgram GPU_SHADER_3D_SMOOTH_COLOR;
              immBegin GWN_PRIM_LINE_STRIP (efra - sfra)]
             ++ flat_map (fun f =>
                  [immAttrib3ubv attr_color
                     (rgb_float_to_uchar
                        (custom_scaled (color (mpath m)) (cfra (scene m)) f));
                   immVertex3fv attr_pos (sample_of_frame (mpath m) f)])
                  (drawn_frames sfra efra)
             ++ immEnd :: rest)).
Proof.
  intros Hcustom. split.
  - intros i sel s e p f n a.
    rewrite set_motion_path_color_emits by now left.
    unfold vertex_color. rewrite Hcustom, Z.gtb_ltb.
    destruct (s + i <? cfra (scene m)), (cfra (scene m) <? s + i);
      reflexivity.
  - intros Hlines Hrange Hreach Hstep.
    rewrite (@emitted_with_lines m sfra efra Hrange Hreach Hstep Hlines).
    assert (Hext :
      flat_map (fun f =>
        [immAttrib3ubv attr_color (strip_color m sfra efra (f - sfra));
         immVertex3fv attr_pos (sample_of_frame (mpath m) f)])
        (drawn_frames sfra efra)
      = flat_map (fun f =>
        [immAttrib3ubv attr_color
           (rgb_float_to_uchar
              (custom_scaled (color (mpath m)) (cfra (scene m)) f));
         immVertex3fv attr_pos (sample_of_frame (mpath m) f)])
        (drawn_frames sfra efra)).
    { apply flat_map_ext. intros f. now rewrite strip_color_custom. }
    rewrite Hext. eexists. reflexivity.
Qed.

(** C7, amended.  On a call that reaches the drawing stage with a step of at
    least one, a line strip is emitted if and only if MOTIONPATH_FLAG_LINES
    is set; it announces efra - sfra vertices and holds one vertex, preceded
    by its color, for every frame of [sfra, efra - 1], in order.  The frame
    efra has no vertex. *)
Theorem line_strip_iff_flag (m : Memory) (sfra efra : Z) :
  resolved_range m = (sfra, efra) ->
  reaches_drawing m = true ->
  1 <= path_step (avs m) ->
  (test_flag (mp_flag (mpath m)) MOTIONPATH_FLAG_LINES = true <->
   line_strip_covers m sfra (efra - 1)) /\
  (forall l n vs,
     emitted m = Some l -> line_strip_of l = Some (n, vs) ->
     n = efra - sfra /\
     vs = map (sample_of_frame (mpath m)) (drawn_frames sfra efra) /\
     (forall f, In f (drawn_frames sfra efra) <-> sfra <= f < efra) /\
     exists rest,
       l = [glLineWidth (f_of_int (line_thickness (mpath m)));
            GWN_vertformat_attr_add attr_pos;
            GWN_vertformat_attr_add attr_color;
            immBindBuiltinProgram GPU_SHADER_3D_SMOOTH_COLOR;
            immBegin GWN_PRIM_LINE_STRIP (efra - sfra)]
           ++ flat_map (fun f =>
                [immAttrib3ubv attr_color (strip_color m sfra efra (f - sfra));
                 immVertex3fv attr_pos (sample_of_frame (mpath m) f)])
                (drawn_frames sfra efra)
           ++ immEnd :: rest).
Proof.
  intros Hrange Hreach Hstep.
  destruct (test_flag (mp_flag (mpath m)) MOTIONPATH_FLAG_LINES) eqn:Hflag.
  - pose proof (@emitted_with_lines m sfra efra Hrange Hreach Hstep Hflag) as E.
    assert (Hstrip : forall l, emitted m = Some l ->
              line_strip_of l
              = Some (efra - sfra,
                      map (sample_of_frame (mpath m)) (drawn_frames sfra efra))).
    { intros l El. rewrite E in El. injection El as <-.
      cbn [app line_strip_of]. now rewrite vertices_of_strip. }
    split.
    + split; [intros _ | reflexivity].
      eexists _, _, _. split; [exact E |]. split; [now apply Hstrip |].
      intros f Hf. apply in_map, in_drawn_frames. lia.
    + intros l n vs El Es. rewrite (Hstrip l El) in Es. injection Es as <- <-.
      split; [reflexivity |]. split; [reflexivity |].
      split; [intros f; apply in_drawn_frames |].
      rewrite E in El. injection El as <-. eexists. reflexivity.
  - assert (Hnone : forall l, emitted m = Some l -> line_strip_of l = None).
    { intros l El. rewrite emitted_drawn in El by assumption.
      injection El as <-. rewrite Hrange. cbn [fst snd].
      unfold line_pass. rewrite Hflag. apply no_strip_after_line_pass. }
    split.
    + split; [discriminate |]. intros (l & n & vs & El & Es & _).
      rewrite (Hnone l El) in Es. discriminate.
    + intros l n vs El Es. rewrite (Hnone l El) in Es. discriminate.
Qed.

(** C8, amended.  The line width is the same on return as on entry, and the
    call that restores it follows the [immEnd] and [immUnbindProgram] of the
    line strip at once, no other call touching it.  The point size is not
    restored: a call that reaches the drawing stage leaves it at
    line_thickness + 1.0, or line_thickness + 5.0 when the current-frame
    marker was drawn; a call that returns early leaves it untouched. *)
Theorem line_width_restored_point_size_left (m : Memory) :
  1 <= path_step (avs m) ->
  exists m',
    draw_motion_path_instance m = Some (tt, m') /\
    line_width (gpu m') = line_width (gpu m) /\
    (reaches_drawing m = false -> point_size (gpu m') = point_size (gpu m)) /\
    (reaches_drawing m = true ->
     point_size (gpu m')
     = f_add (f_of_int (line_thickness (mpath m)))
             (if cframe_marker_drawn m (fst (resolved_range m))
                                       (snd (resolved_range m))
              then f_lit 5.0 else f_lit 1.0)) /\
    (reaches_drawing m = true ->
     test_flag (mp_flag (mpath m)) MOTIONPATH_FLAG_LINES = true ->
     exists strip rest,
       emitted m
       = Some (glLineWidth (f_of_int (line_thickness (mpath m))) :: strip
               ++ [immEnd; immUnbindProgram; glLineWidth (line_width (gpu m))]
               ++ rest) /\
       (forall w, ~ In (glLineWidth w) strip) /\
       (forall w, ~ In (glLineWidth w) rest)).
Proof.
  intros Hstep. rewrite draw_motion_path_instance_run.
  destruct (reaches_drawing m) eqn:Hreach.
  - assert (E : (1 <=? path_step (avs m)) = true) by lia. rewrite E.
    eexists. split; [reflexivity |]. unfold drawn.
    destruct (resolved_range m) as [sfra efra] eqn:Hrange. cbn [fst snd].
    cbn [gpu line_width point_size].
    split; [reflexivity |]. split; [discriminate |].
    split; [reflexivity |]. intros _ Hflag.
    rewrite (@emitted_with_lines m sfra efra Hrange Hreach Hstep Hflag).
    eexists (_ :: _ :: _ :: _ :: _), _. split; [reflexivity |].
    split; intros w Hin.
    + in_cases Hin.
    + unfold frame_dots_pass, step_dots_pass, cframe_pass in Hin.
      in_cases Hin.
  - eexists. split; [reflexivity |]. repeat split; auto; discriminate.
Qed.

End Emission.

(** C4 on the cache range [1, 8] shown whole with step 3: length 7, three
    dots, for the frames 1, 4 and 7. *)
Lemma step_dots_count_is_ceiling_witness :
  exists n : nat,
    (Z.of_nat n - 1) * 3 < 7 <= Z.of_nat n * 3 /\
    emitted (at_frame 20 (show_range 1 8 3 0) (cached_path 1 8 0))
    = Some ([GWN_vertformat_attr_add attr_pos;
             immBindBuiltinProgram GPU_SHADER_3D_UNIFORM_COLOR;
             @glPointSize QFloat (2 # 1)%Q; immUniformColor3ub 0 0 0;
             immBegin GWN_PRIM_POINTS 7]
            ++ map (fun i => immVertex3fv attr_pos i) [0; 1; 2; 3; 4; 5; 6]
            ++ [immEnd; immUniformThemeColor TH_TEXT_HI;
                immBegin GWN_PRIM_POINTS (Z.of_nat n)]
            ++ map (fun k => immVertex3fv attr_pos (Z.of_nat k * 3)) (seq 0 n)
            ++ [immEnd; immUnbindProgram]).
Proof.
  destruct (@step_dots_count_is_ceiling QFloat QHost
              (at_frame 20 (show_range 1 8 3 0) (cached_path 1 8 0)) 1 8)
    as (n & Hn & E).
  - reflexivity.
  - vm_compute. reflexivity.
  - vm_compute. discriminate.
  - vm_compute. discriminate.
  - exists n. split; [exact Hn |].
    assert (n = 3%nat) as -> by (cbn in Hn; lia).
    rewrite E. vm_compute. reflexivity.
Defined.

(** C9 on an object of matrix 2 (a uniform scaling): the inverse 1/2 is
    stored. *)
Lemma drawing_stores_inverse_matrix_witness :
  exists m',
    draw_motion_path_instance
      (at_frame 3 (show_range 1 5 1 0) (cached_path 1 5 0)) = Some (tt, m') /\
    imat (ob m') = (1 # 2)%Q.
Proof.
  destruct (@drawing_stores_inverse_matrix QFloat QHost
              (at_frame 3 (show_range 1 5 1 0) (cached_path 1 5 0)) eq_refl)
    as [Hret Hall].
  destruct Hret as [m' E]; [vm_compute; discriminate |].
  exists m'. split; [exact E |].
  destruct (Hall m' E) as (Himat & _). rewrite Himat. reflexivity.
Defined.

(** C3 as stated fails with the current frame on the first frame of the
    resolved range: CFRA = 1 lies in [sfra, efra] = [1, 5] and the
    keyframe-view flag is set, yet no marker is emitted. *)
Lemma cframe_marker_missing_at_range_start :
  ~ (cframe_marker_emitted current_frame_at_start <->
     (fst (resolved_range current_frame_at_start)
        <= cfra (scene current_frame_at_start)
        <= snd (resolved_range current_frame_at_start)) /\
     test_flag (path_viewflag (avs current_frame_at_start))
               (@MOTIONPATH_VIEW_KFRAS QFloat QHost) = true).
Proof.
  intros [_ Hback].
  destruct Hback as (l & E & Hin).
  - vm_compute. intuition discriminate.
  - rewrite emitted_drawn in E by (vm_compute; (reflexivity || discriminate)).
    injection E as <-. in_cases Hin.
Qed.

(** C3, amended, with the current frame 3 inside the range [1, 5]. *)
Lemma cframe_marker_emitted_exactly_witness :
  cframe_marker_emitted keyframes_over_1_5.
Proof.
  apply (proj2 (proj1 (@cframe_marker_emitted_exactly QFloat QHost
                         keyframes_over_1_5 ltac:(vm_compute; discriminate)))).
  split; [discriminate |]. split; [reflexivity |].
  vm_compute. intuition discriminate.
Defined.

(** The run over the resolved range [1, 5] with lines drawn, and its line
    strip. *)
Lemma emitted_lines_over_1_5 :
  emitted lines_over_1_5
  = Some [@glLineWidth QFloat (1 # 1)%Q; GWN_vertformat_attr_add attr_pos;
          GWN_vertformat_attr_add attr_color;
          immBindBuiltinProgram GPU_SHADER_3D_SMOOTH_COLOR;
          immBegin GWN_PRIM_LINE_STRIP 4;
          immAttrib3ubv attr_color (38, 38, 38); immVertex3fv attr_pos 0;
          immAttrib3ubv attr_color (65, 130, 43); immVertex3fv attr_pos 1;
          immAttrib3ubv attr_color (67, 68, 67); immVertex3fv attr_pos 2;
          immAttrib3ubv attr_color (90, 194, 125); immVertex3fv attr_pos 3;
          immEnd; immUnbindProgram; @glLineWidth QFloat (1 # 1)%Q;
          GWN_vertformat_attr_add attr_pos;
          immBindBuiltinProgram GPU_SHADER_3D_UNIFORM_COLOR;
          @glPointSize QFloat (2 # 1)%Q; immUniformColor3ub 0 0 0;
          immBegin GWN_PRIM_POINTS 4;
          immVertex3fv attr_pos 0; immVertex3fv attr_pos 1;
          immVertex3fv attr_pos 2; immVertex3fv attr_pos 3; immEnd;
          immUniformThemeColor TH_TEXT_HI; immBegin GWN_PRIM_POINTS 4;
          immVertex3fv attr_pos 0; immVertex3fv attr_pos 1;
          immVertex3fv attr_pos 2; immVertex3fv attr_pos 3; immEnd;
          immUnbindProgram].
Proof. vm_compute. reflexivity. Qed.

Lemma line_strip_of_lines_over_1_5 :
  exists l,
    emitted lines_over_1_5 = Some l /\
    line_strip_of l = Some (4, [0; 1; 2; 3]).
Proof. eexists. split; [apply emitted_lines_over_1_5 | reflexivity]. Qed.

(** C7 as stated fails at the frame efra: over the resolved range [1, 5] the
    flag is set and the strip holds the samples 0..3 of the frames 1..4, but
    no vertex for the frame 5. *)
Lemma line_strip_misses_frame_efra :
  ~ (test_flag (mp_flag (mpath lines_over_1_5))
               (@MOTIONPATH_FLAG_LINES QFloat QHost) = true <->
     line_strip_covers lines_over_1_5
       (fst (resolved_range lines_over_1_5))
       (snd (resolved_range lines_over_1_5))).
Proof.
  intros [Hfwd _].
  destruct Hfwd as (l & n & vs & E & Es & Hcov); [reflexivity |].
  destruct line_strip_of_lines_over_1_5 as (l0 & E0 & Es0).
  rewrite E0 in E. injection E as <-.
  rewrite Es0 in Es. injection Es as <- <-.
  assert (Hin : In (sample_of_frame (mpath lines_over_1_5) 5) [0; 1; 2; 3])
    by (apply Hcov; vm_compute; split; discriminate).
  vm_compute in Hin. intuition discriminate.
Qed.

(** C7, amended, over the resolved range [1, 5]: the strip covers the frames
    1..4. *)
Lemma line_strip_iff_flag_witness :
  line_strip_covers lines_over_1_5 1 4.
Proof.
  apply (proj1 (@line_strip_iff_flag QFloat QHost lines_over_1_5 1 5
                  eq_refl eq_refl ltac:(vm_compute; discriminate))).
  reflexivity.
Defined.

(** C8 as stated fails for the point size: it is 1 on entry and 2, the line
    thickness plus one, on return. *)
Lemma point_size_not_restored :
  exists m',
    draw_motion_path_instance lines_over_1_5 = Some (tt, m') /\
    point_size (gpu lines_over_1_5) = (1 # 1)%Q /\
    point_size (gpu m') = (2 # 1)%Q /\
    point_size (gpu m') <> point_size (gpu lines_over_1_5).
Proof.
  exists (drawn lines_over_1_5).
  split; [apply draw_reaches; vm_compute; (reflexivity || discriminate) |].
  repeat split; vm_compute; discriminate.
Qed.

(** C8, amended, on the same call: the line width 1 is back on return. *)
Lemma line_width_restored_point_size_left_witness :
  exists m',
    draw_motion_path_instance lines_over_1_5 = Some (tt, m') /\
    line_width (gpu m') = (1 # 1)%Q.
Proof.
  destruct (@line_width_restored_point_size_left QFloat QHost lines_over_1_5
              ltac:(vm_compute; discriminate))
    as (m' & E & Hw & _).
  exists m'. split; [exact E | exact Hw].
Defined.

(** C5 on the base color (1, 0.5, 0.25) over the range [1, 5] with the
    current frame 3: the line strip of the run is sent in a quarter of the
    base color for the frames 1 and 2, half of it for the frame 3 and the
    base color for the frame 4. *)
Lemma custom_color_scales_base_color_witness :
  exists rest,
    emitted custom_lines_over_1_5
    = Some ([@glLineWidth QFloat (1 # 1)%Q;
             GWN_vertformat_attr_add attr_pos;
             GWN_vertformat_attr_add attr_color;
             immBindBuiltinProgram GPU_SHADER_3D_SMOOTH_COLOR;
             immBegin GWN_PRIM_LINE_STRIP 4;
             immAttrib3ubv attr_color (64, 32, 16); immVertex3fv attr_pos 0;
             immAttrib3ubv attr_color (64, 32, 16); immVertex3fv attr_pos 1;
             immAttrib3ubv attr_color (128, 64, 32); immVertex3fv attr_pos 2;
             immAttrib3ubv attr_color (255, 128, 64); immVertex3fv attr_pos 3;
             immEnd] ++ rest).
Proof.
  destruct (proj2 (@custom_color_scales_base_color QFloat QHost
                     custom_lines_over_1_5 1 5 eq_refl)
              eq_refl eq_refl eq_refl ltac:(vm_compute; discriminate))
    as (rest & E).
  exists rest. rewrite E. reflexivity.
Defined.

(** C6 on two memories that agree on the current frame 3 and carry no custom
    color: the same theme color is sent in both. *)
Lemma set_motion_path_color_deterministic_witness :
  exists c : uchar3,
    set_motion_path_color 0 0 1 5 black black black attr_color lines_over_1_5
    = Some (tt, add_calls [immAttrib3ubv attr_color c] lines_over_1_5) /\
    set_motion_path_color 0 0 1 5 black black black attr_color around_frame_3
    = Some (tt, add_calls [immAttrib3ubv attr_color c] around_frame_3).
Proof.
  destruct (@set_motion_path_color_deterministic QFloat QHost 0 0 1 5
              black black black attr_color lines_over_1_5 around_frame_3
              eq_refl eq_refl)
    as [[Hnone _] | Hsame].
  - rewrite set_motion_path_color_emits in Hnone;
      [discriminate Hnone | right; cbn; lia].
  - exact Hsame.
Defined.

(** ** Further properties of the drawing code *)

Section DrawingEdges.
Context {FL : CFloat} {H : Host}.

(** What a run emits, in every case. *)
Lemma emitted_run (m : Memory) :
  emitted m
  = if reaches_drawing m
    then if 1 <=? path_step (avs m)
         then Some (line_pass m (fst (resolved_range m)) (snd (resolved_range m))
                    ++ frame_dots_pass m (fst (resolved_range m))
                         (snd (resolved_range m))
                    ++ step_dots_pass m (fst (resolved_range m))
                         (snd (resolved_range m))
                    ++ cframe_pass m (fst (resolved_range m))
                         (snd (resolved_range m))
                    ++ [immUnbindProgram])
         else None
    else Some [].
Proof.
  destruct (reaches_drawing m) eqn:Hreach.
  - destruct (Z.leb_spec 1 (path_step (avs m))) as [Hstep | Hstep].
    + now apply emitted_drawn.
    + unfold emitted. rewrite draw_diverges by (assumption || lia).
      reflexivity.
  - now apply emitted_skips.
Qed.

(** X1.  For a step of at least one, a call logs something (it changes the
    GL state or draws) if and only if the resolved range has sfra < efra and
    [mpath->points] is not NULL; otherwise its only GL call is the line-width
    query of line 218 and the log is left as it was. *)
Theorem draws_iff_range_and_points (m : Memory) :
  1 <= path_step (avs m) ->
  ((exists c l, emitted m = Some (c :: l)) <->
   fst (resolved_range m) < snd (resolved_range m) /\
   points (mpath m) <> None) /\
  (emitted m = Some [] <->
   ~ (fst (resolved_range m) < snd (resolved_range m) /\
      points (mpath m) <> None)).
Proof.
  intros Hstep. rewrite <- reaches_drawing_iff, emitted_run.
  assert (E : (1 <=? path_step (avs m)) = true) by lia. rewrite E.
  destruct (reaches_drawing m).
  - unfold frame_dots_pass.
    destruct (line_pass m (fst (resolved_range m)) (snd (resolved_range m)))
      as [| c0 l0]; cbn [app].
    + split; split; try discriminate; try congruence.
      intros _. eexists _, _. reflexivity.
    + split; split; try discriminate; try congruence.
      intros _. eexists _, _. reflexivity.
  - split; split; try discriminate; try congruence.
    intros (c & l & E'). discriminate.
Qed.

(** X2.  On every call that reaches the drawing stage (step at least one) the
    pass of the frame dots follows the line pass whatever the flags: under
    the uniform-color program, with point size line_thickness + 1.0 and the
    color black, it sends efra - sfra points, one for every frame of
    [sfra, efra - 1] in order. *)
Theorem frame_dots_always_drawn (m : Memory) (sfra efra : Z) :
  resolved_range m = (sfra, efra) ->
  reaches_drawing m = true ->
  1 <= path_step (avs m) ->
  exists rest,
    emitted m
    = Some (line_pass m sfra efra
            ++ [GWN_vertformat_attr_add attr_pos;
                immBindBuiltinProgram GPU_SHADER_3D_UNIFORM_COLOR;
                glPointSize (f_add (f_of_int (line_thickness (mpath m)))
                                   (f_lit 1.0));
                immUniformColor3ub 0 0 0;
                immBegin GWN_PRIM_POINTS (efra - sfra)]
            ++ map (fun f => immVertex3fv attr_pos (sample_of_frame (mpath m) f))
                   (drawn_frames sfra efra)
            ++ immEnd :: rest) /\
    length (drawn_frames sfra efra) = Z.to_nat (efra - sfra).
Proof.
  intros Hrange Hreach Hstep.
  rewrite emitted_drawn by assumption. rewrite Hrange. cbn [fst snd].
  eexists. split; [| apply visited_length].
  unfold frame_dots_pass. do 2 f_equal. rewrite <- !app_assoc.
  f_equal. f_equal.
  - unfold drawn_frames, visited. rewrite !map_map. apply map_ext.
    intros k. unfold sample_of_frame. f_equal. lia.
  - reflexivity.
Qed.

(** X3.  When the current-frame marker is emitted (step at least one), it is
    the last primitive of the run: one point, of size line_thickness + 5.0
    and theme color TH_CFRAME, at the sample of the frame CFRA itself. *)
Theorem cframe_marker_at_current_frame (m : Memory) :
  1 <= path_step (avs m) ->
  cframe_marker_emitted m ->
  exists before,
    emitted m
    = Some (before
            ++ [glPointSize (f_add (f_of_int (line_thickness (mpath m)))
                                   (f_lit 5.0));
                immUniformThemeColor TH_CFRAME;
                immBegin GWN_PRIM_POINTS 1;
                immVertex3fv attr_pos
                  (sample_of_frame (mpath m) (cfra (scene m)));
                immEnd;
                immUnbindProgram]).
Proof.
  intros Hstep Hem. apply cframe_marker_guard in Hem; [| assumption].
  destruct Hem as (Hpts & Hflag & Hlt & Hle).
  assert (Hreach : reaches_drawing m = true)
    by (apply reaches_drawing_iff; split; [lia | assumption]).
  rewrite emitted_drawn by assumption.
  unfold cframe_pass, cframe_marker_drawn. rewrite Hflag.
  assert (E1 : (fst (resolved_range m) <? cfra (scene m)) = true) by lia.
  assert (E2 : (cfra (scene m) <=? snd (resolved_range m)) = true) by lia.
  rewrite E1, E2. cbn [andb].
  exists (line_pass m (fst (resolved_range m)) (snd (resolved_range m))
          ++ frame_dots_pass m (fst (resolved_range m)) (snd (resolved_range m))
          ++ step_dots_pass m (fst (resolved_range m)) (snd (resolved_range m))).
  rewrite <- !app_assoc. do 4 f_equal. cbn [app]. do 3 f_equal.
  unfold sample_of_frame. f_equal. f_equal. lia.
Qed.

(** X4.  Degenerate ranges draw nothing: when the cache has
    end_frame <= start_frame, or the requested window has its end at or
    before its start (a reversed window included), the call returns after
    the line-width query of line 218 with the memory untouched and nothing
    logged. *)
Theorem degenerate_range_is_noop (m : Memory) :
  end_frame (mpath m) <= start_frame (mpath m) \/
  snd (frame_range (cfra (scene m)) (avs m))
    <= fst (frame_range (cfra (scene m)) (avs m)) ->
  draw_motion_path_instance m = Some (tt, m) /\ emitted m = Some [].
Proof.
  intros Hdeg.
  assert (Hskip : reaches_drawing m = false).
  { destruct (reaches_drawing m) eqn:E; [| reflexivity].
    apply reaches_drawing_iff in E. destruct E as [Hlt _].
    revert Hlt Hdeg. unfold resolved_range.
    destruct (frame_range (cfra (scene m)) (avs m)) as [rs re].
    destruct (clamp_range_bounds (mpath m) rs re) as [Hs He].
    cbn [fst snd] in *. lia. }
  auto using draw_skips, emitted_skips.
Qed.

(** X5.  Clamping is idempotent, and a requested window that lies inside the
    cache range is resolved to itself. *)
Theorem clamp_range_fixpoints (mp : bMotionPath) (r : Z * Z) :
  clamp_range mp (clamp_range mp r) = clamp_range mp r /\
  (start_frame mp <= fst r -> snd r <= end_frame mp -> clamp_range mp r = r).
Proof.
  destruct r as [rs re]. unfold clamp_range. cbn [fst snd]. split.
  - destruct (rs <? start_frame mp) eqn:E1;
      destruct (re >? end_frame mp) eqn:E2; f_equal;
      repeat match goal with
             | |- context [?a <? ?b] => destruct (Z.ltb_spec a b)
             | |- context [?a >? ?b] => destruct (Z.gtb_spec a b)
             end; lia.
  - intros Hs He.
    assert (E1 : (rs <? start_frame mp) = false) by lia.
    assert (E2 : (re >? end_frame mp) = false) by lia.
    now rewrite E1, E2.
Qed.

(** X6.  A call does not return exactly when it reaches the drawing stage
    with a step below one: step 0 divides by zero in the count of the step
    dots, and with a negative step the loop of the step dots never leaves
    its range. *)
Theorem returns_unless_step_below_one (m : Memory) :
  draw_motion_path_instance m = None <->
  reaches_drawing m = true /\ path_step (avs m) <= 0.
Proof.
  rewrite draw_motion_path_instance_run.
  destruct (reaches_drawing m).
  - destruct (Z.leb_spec 1 (path_step (avs m))) as [Hstep | Hstep].
    + split; [discriminate | intros [_ Hle]; lia].
    + split; [intros _; split; [reflexivity | lia] | reflexivity].
  - split; [discriminate | intros [Hr _]; discriminate Hr].
Qed.

(** X7.  [set_motion_path_color] is undefined exactly when the path has no
    custom color and the divisor of SET_INTENSITY is zero: the frame lies
    before CFRA and CFRA = sfra, or after CFRA and CFRA = efra.  For the
    indices 0 <= i < efra - sfra of the line strip it is always defined. *)
Theorem set_motion_path_color_undefined_iff (i sel sfra efra : Z)
    (prev_color frame_color next_color : vec3) (a : attrib) (m : Memory) :
  (set_motion_path_color i sel sfra efra prev_color frame_color next_color a m
   = None <->
   test_flag (mp_flag (mpath m)) MOTIONPATH_FLAG_CUSTOM = false /\
   ((sfra + i < cfra (scene m) /\ cfra (scene m) = sfra) \/
    (sfra + i > cfra (scene m) /\ cfra (scene m) = efra))) /\
  (0 <= i < efra - sfra ->
   set_motion_path_color i sel sfra efra prev_color frame_color next_color a m
   <> None).
Proof.
  assert (Hiff :
    set_motion_path_color i sel sfra efra prev_color frame_color next_color a m
    = None <->
    test_flag (mp_flag (mpath m)) MOTIONPATH_FLAG_CUSTOM = false /\
    ((sfra + i < cfra (scene m) /\ cfra (scene m) = sfra) \/
     (sfra + i > cfra (scene m) /\ cfra (scene m) = efra))).
  { unfold set_motion_path_color, SET_INTENSITY, int_div, bind, get.
    destruct (Z.ltb_spec (sfra + i) (cfra (scene m))) as [Hlt | Hge];
      [| destruct (Z.gtb_spec (sfra + i) (cfra (scene m))) as [Hgt | Hle]];
      destruct (test_flag (mp_flag (mpath m)) MOTIONPATH_FLAG_CUSTOM);
      try destruct (negb (sel =? 0));
      try match goal with
          | |- context [?x =? 0] => destruct (Z.eqb_spec x 0)
          end;
      first
        [ solve [split; [discriminate
                        | intros [Hc Hd]; try discriminate Hc; lia]]
        | solve [split; [intros _; split; [reflexivity | lia]
                        | reflexivity]] ]. }
  split; [exact Hiff |].
  intros Hi Hnone. apply Hiff in Hnone. lia.
Qed.

(** X8.  In the "around current frame" mode with at least zero frames shown
    after CFRA, a step of at least one, the keyframe-view flag set and
    samples present, the current-frame marker is emitted if and only if at
    least one frame is shown before CFRA and
    start_frame < CFRA <= end_frame. *)
Theorem cframe_marker_around_current_frame (m : Memory) :
  path_type (avs m) = MOTIONPATH_TYPE_ACFRA ->
  0 <= path_ac (avs m) ->
  1 <= path_step (avs m) ->
  points (mpath m) <> None ->
  test_flag (path_viewflag (avs m)) MOTIONPATH_VIEW_KFRAS = true ->
  (cframe_marker_emitted m <->
   1 <= path_bc (avs m) /\
   start_frame (mpath m) < cfra (scene m) <= end_frame (mpath m)).
Proof.
  intros Htype Hac Hstep Hpts Hflag.
  rewrite (cframe_marker_guard m Hstep).
  unfold resolved_range, frame_range. rewrite Htype, Z.eqb_refl.
  destruct (clamp_range_bounds (mpath m)
              (cfra (scene m) - path_bc (avs m))
              (cfra (scene m) + path_ac (avs m))) as [Hs He].
  cbn zeta in Hs, He. rewrite Hs, He. split.
  - intros (_ & _ & Hlt & Hle). lia.
  - intros (Hbc & Hlt & Hle). repeat split; try assumption; lia.
Qed.

End DrawingEdges.

(** ** The emitted calls as a whole *)

Section EmittedLog.
Context {FL : CFloat} {H : Host}.

Lemma imm_run_app (s : imm_state) (l1 l2 : list gpu_call) :
  imm_run s (l1 ++ l2)
  = match imm_run s l1 with
    | Some s' => imm_run s' l2
    | None => None
    end.
Proof.
  revert s. induction l1 as [| c l1 IH]; intros s; [reflexivity |].
  cbn [app imm_run]. destruct (imm_step s c); auto.
Qed.

Lemma imm_run_vertices (a : attrib) (g : Z -> Z) (fs : list Z) (b : bool) :
  forall r k : Z,
    0 <= k -> r = Z.of_nat (length fs) + k ->
    imm_run {| program_bound := b; vertices_left := Some r |}
            (map (fun f => immVertex3fv a (g f)) fs)
    = Some {| program_bound := b; vertices_left := Some k |}.
Proof.
  induction fs as [| f fs IH]; intros r k Hk Hr.
  - cbn in *. subst r. reflexivity.
  - cbn [map imm_run imm_step vertices_left program_bound].
    assert (E : (0 <? r) = true) by (cbn [length] in Hr; lia).
    rewrite E. apply IH; [assumption |]. cbn [length] in Hr. lia.
Qed.

Lemma imm_run_colored_vertices (a a' : attrib) (c : Z -> uchar3) (g : Z -> Z)
    (fs : list Z) (b : bool) :
  forall r k : Z,
    0 <= k -> r = Z.of_nat (length fs) + k ->
    imm_run {| program_bound := b; vertices_left := Some r |}
            (flat_map (fun f => [immAttrib3ubv a (c f); immVertex3fv a' (g f)])
                      fs)
    = Some {| program_bound := b; vertices_left := Some k |}.
Proof.
  induction fs as [| f fs IH]; intros r k Hk Hr.
  - cbn in *. subst r. reflexivity.
  - cbn [flat_map app imm_run imm_step vertices_left program_bound].
    assert (E : (0 <? r) = true) by (cbn [length] in Hr; lia).
    rewrite E. cbn [imm_step vertices_left program_bound]. rewrite E.
    apply IH; [assumption |]. cbn [length] in Hr. lia.
Qed.

Lemma line_pass_protocol (m : Memory) (sfra efra : Z) :
  0 < efra - sfra ->
  imm_run imm_idle (line_pass m sfra efra) = Some imm_idle.
Proof.
  intros Hlen. unfold line_pass.
  destruct (test_flag (mp_flag (mpath m)) MOTIONPATH_FLAG_LINES);
    [| reflexivity].
  cbn [app imm_run imm_step imm_idle vertices_left program_bound andb].
  assert (E : (0 <=? efra - sfra) = true) by lia. rewrite E.
  rewrite imm_run_app.
  rewrite (@imm_run_colored_vertices attr_color attr_pos _ _ _ true
             (efra - sfra) 0)
    by (rewrite ?visited_length; lia).
  reflexivity.
Qed.

Lemma frame_dots_pass_protocol (m : Memory) (sfra efra : Z) :
  0 < efra - sfra ->
  imm_run imm_idle (frame_dots_pass m sfra efra)
  = Some {| program_bound := true; vertices_left := None |}.
Proof.
  intros Hlen. unfold frame_dots_pass.
  cbn [app imm_run imm_step imm_idle vertices_left program_bound andb].
  assert (E : (0 <=? efra - sfra) = true) by lia. rewrite E.
  rewrite imm_run_app.
  rewrite (@imm_run_vertices attr_pos _ _ true (efra - sfra) 0)
    by (rewrite ?visited_length; lia).
  reflexivity.
Qed.

Lemma step_dots_pass_protocol (m : Memory) (sfra efra : Z) :
  0 < efra - sfra -> 1 <= path_step (avs m) ->
  imm_run {| program_bound := true; vertices_left := None |}
          (step_dots_pass m sfra efra)
  = Some {| program_bound := true; vertices_left := None |}.
Proof.
  intros Hlen Hstep. unfold step_dots_pass.
  destruct (step_count_ceiling Hlen Hstep) as [_ Hn].
  assert (E : (0 <=? step_count (efra - sfra) (path_step (avs m))) = true)
    by lia.
  destruct (test_flag (mp_flag (mpath m)) MOTIONPATH_FLAG_CUSTOM);
    cbn [app imm_run imm_step vertices_left program_bound andb];
    rewrite E, imm_run_app;
    rewrite (@imm_run_vertices attr_pos _ _ true
               (step_count (efra - sfra) (path_step (avs m))) 0)
      by (rewrite ?visited_length; lia);
    reflexivity.
Qed.

Lemma cframe_pass_protocol (m : Memory) (sfra efra : Z) :
  imm_run {| program_bound := true; vertices_left := None |}
          (cframe_pass m sfra efra ++ [immUnbindProgram])
  = Some imm_idle.
Proof.
  unfold cframe_pass. destruct (cframe_marker_drawn m sfra efra); reflexivity.
Qed.

(** X9.  Whatever a run emits respects the immediate-mode protocol: the
    attributes are declared before a program is bound, every [immBegin] is
    followed by exactly the announced number of vertices and then [immEnd],
    primitives do not nest, uniforms are set under a bound program, and on
    return no program is bound and no primitive is open. *)
Theorem emitted_respects_imm_protocol (m : Memory) (l : list gpu_call) :
  emitted m = Some l ->
  imm_run imm_idle l = Some imm_idle.
Proof.
  rewrite emitted_run. destruct (reaches_drawing m) eqn:Hreach.
  - destruct (Z.leb_spec 1 (path_step (avs m))) as [Hstep | Hstep];
      [| discriminate].
    intros E.
    match type of E with
    | Some ?l0 = Some l => assert (El : l = l0) by congruence
    end.
    rewrite El. clear E El.
    apply reaches_drawing_iff in Hreach. destruct Hreach as [Hlt _].
    assert (Hlen : 0 < snd (resolved_range m) - fst (resolved_range m)) by lia.
    rewrite imm_run_app, line_pass_protocol by assumption. cbv iota beta.
    rewrite imm_run_app, frame_dots_pass_protocol by assumption.
    cbv iota beta.
    rewrite imm_run_app, step_dots_pass_protocol by assumption.
    cbv iota beta. apply cframe_pass_protocol.
  - intros E. injection E as <-. reflexivity.
Qed.

(** The emitted calls are a function of the scene, the settings, the path,
    the selection and the line width on entry. *)
Lemma emitted_agree (m1 m2 : Memory) :
  scene m1 = scene m2 -> avs m1 = avs m2 -> mpath m1 = mpath m2 ->
  pchan m1 = pchan m2 -> ob_flag (ob m1) = ob_flag (ob m2) ->
  line_width (gpu m1) = line_width (gpu m2) ->
  emitted m1 = emitted m2.
Proof.
  destruct m1 as [s1 [f1 om1 im1] p1 a1 mp1 [w1 ps1 c1]].
  destruct m2 as [s2 [f2 om2 im2] p2 a2 mp2 [w2 ps2 c2]].
  cbn [scene avs mpath pchan ob ob_flag gpu line_width].
  intros -> -> -> -> -> ->. rewrite !emitted_run. reflexivity.
Qed.

(** X10.  The calls a run emits do not depend on the object's matrices, on
    the point size or on what was logged before: two memories that agree on
    the scene, the settings, the path, the pose channel, the object flag and
    the line width emit the same calls. *)
Theorem emitted_depends_only_on_inputs (m1 m2 : Memory) :
  scene m1 = scene m2 -> avs m1 = avs m2 -> mpath m1 = mpath m2 ->
  pchan m1 = pchan m2 -> ob_flag (ob m1) = ob_flag (ob m2) ->
  line_width (gpu m1) = line_width (gpu m2) ->
  emitted m1 = emitted m2 /\
  (draw_motion_path_instance m1 = None <-> draw_motion_path_instance m2 = None).
Proof.
  intros Hs Ha Hmp Hp Hf Hw.
  pose proof (emitted_agree m1 m2 Hs Ha Hmp Hp Hf Hw) as E.
  split; [exact E |].
  unfold emitted in E.
  destruct (draw_motion_path_instance m1) as [[[] m1'] |];
    destruct (draw_motion_path_instance m2) as [[[] m2'] |];
    try discriminate; split; congruence.
Qed.

(** What [drawn] keeps of the memory it starts from. *)
Lemma drawn_keeps_inputs (m : Memory) :
  scene (drawn m) = scene m /\ avs (drawn m) = avs m /\
  mpath (drawn m) = mpath m /\ pchan (drawn m) = pchan m /\
  ob_flag (ob (drawn m)) = ob_flag (ob m) /\
  obmat (ob (drawn m)) = obmat (ob m) /\
  imat (ob (drawn m)) = invert_m4_m4 (obmat (ob m)) /\
  line_width (gpu (drawn m)) = line_width (gpu m) /\
  point_size (gpu (drawn m))
  = f_add (f_of_int (line_thickness (mpath m)))
          (if cframe_marker_drawn m (fst (resolved_range m))
                                    (snd (resolved_range m))
           then f_lit 5.0 else f_lit 1.0).
Proof.
  unfold drawn. destruct (resolved_range m). cbn. repeat split.
Qed.

(** X11.  Drawing is repeatable: after a call that returned, a second call
    returns too, emits the same calls as the first, and leaves the object,
    the line width and the point size as the first call left them. *)
Theorem second_call_repeats_first (m m' : Memory) :
  draw_motion_path_instance m = Some (tt, m') ->
  emitted m' = emitted m /\
  exists m'',
    draw_motion_path_instance m' = Some (tt, m'') /\
    ob m'' = ob m' /\
    line_width (gpu m'') = line_width (gpu m') /\
    point_size (gpu m'') = point_size (gpu m').
Proof.
  rewrite draw_motion_path_instance_run.
  destruct (reaches_drawing m) eqn:Hreach.
  - destruct (Z.leb_spec 1 (path_step (avs m))) as [Hstep | Hstep];
      [| discriminate].
    intros E. assert (Em : m' = drawn m) by congruence. subst m'. clear E.
    destruct (drawn_keeps_inputs m)
      as (Hs & Ha & Hmp & Hp & Hf & Hom & Him & Hw & Hps).
    assert (Hr : resolved_range (drawn m) = resolved_range m)
      by (unfold resolved_range; now rewrite Hs, Ha, Hmp).
    assert (Hreach' : reaches_drawing (drawn m) = true)
      by (rewrite <- Hreach; unfold reaches_drawing; now rewrite Hr, Hmp).
    split; [now apply emitted_agree |].
    exists (drawn (drawn m)).
    split; [apply draw_reaches; [assumption | now rewrite Ha] |].
    destruct (drawn_keeps_inputs (drawn m))
      as (_ & _ & _ & _ & Hf' & Hom' & Him' & Hw' & Hps').
    split; [| split; [assumption |]].
    + destruct (ob (drawn (drawn m))) as [f2 om2 im2].
      destruct (ob (drawn m)) as [f1 om1 im1].
      cbn [ob_flag obmat imat] in *. congruence.
    + rewrite Hps', Hps, Hr, Hmp. unfold cframe_marker_drawn.
      now rewrite Ha, Hs.
  - intros E. assert (Em : m' = m) by congruence. subst m'.
    split; [reflexivity |].
    exists m. rewrite draw_motion_path_instance_run, Hreach. auto.
Qed.

End EmittedLog.

(** ** Where the dots lie *)

Ltac in_passes Hin :=
  repeat match type of Hin with
  | In _ (_ ++ _) => apply in_app_or in Hin; destruct Hin as [Hin | Hin]
  | In _ (map _ _) =>
      let i := fresh "i" in let Hi := fresh "Hi" in
      let k := fresh "k" in let Hk := fresh "Hk" in
      apply in_map_iff in Hin; destruct Hin as (i & Hin & Hi);
      apply in_visited in Hi; destruct Hi as (k & Hk & ->)
  | In _ (flat_map _ _) =>
      let i := fresh "i" in let Hi := fresh "Hi" in
      let k := fresh "k" in let Hk := fresh "Hk" in
      apply in_flat_map in Hin; destruct Hin as (i & Hi & Hin);
      apply in_visited in Hi; destruct Hi as (k & Hk & ->)
  | In _ (_ :: _) => destruct Hin as [Hin | Hin]
  | In _ [] => destruct Hin
  | (if ?b then _ else _) = _ => destruct b
  end; try discriminate Hin.

Section DotsOnPath.
Context {FL : CFloat} {H : Host}.

Lemma in_frame_dots_pass (m : Memory) (sfra efra v : Z) :
  In (immVertex3fv attr_pos v) (frame_dots_pass m sfra efra) <->
  exists i, 0 <= i < efra - sfra /\ v = sfra - start_frame (mpath m) + i.
Proof.
  unfold frame_dots_pass. split.
  - intros Hin. in_passes Hin. injection Hin as <-.
    exists (0 + k * 1). split; [lia | reflexivity].
  - intros (i & Hi & ->). apply in_or_app. right. apply in_or_app. left.
    apply in_map_iff. exists i. split; [reflexivity |].
    apply in_visited. exists i. lia.
Qed.

Lemma in_line_pass (m : Memory) (sfra efra v : Z) :
  test_flag (mp_flag (mpath m)) MOTIONPATH_FLAG_LINES = true ->
  In (immVertex3fv attr_pos v) (line_pass m sfra efra) <->
  exists i, 0 <= i < efra - sfra /\ v = sfra - start_frame (mpath m) + i.
Proof.
  intros Hflag. unfold line_pass. rewrite Hflag. split.
  - intros Hin. in_passes Hin. injection Hin as <-.
    exists (0 + k * 1). split; [lia | reflexivity].
  - intros (i & Hi & ->). apply in_or_app. right. apply in_or_app. left.
    apply in_flat_map. exists i. split.
    + apply in_visited. exists i. lia.
    + right. left. reflexivity.
Qed.

Lemma in_step_dots_pass (m : Memory) (sfra efra v : Z) :
  In (immVertex3fv attr_pos v) (step_dots_pass m sfra efra) <->
  exists k,
    0 <= k < Z.of_nat (Z.to_nat (step_count (efra - sfra) (path_step (avs m))))
    /\ v = sfra - start_frame (mpath m) + k * path_step (avs m).
Proof.
  unfold step_dots_pass. split.
  - intros Hin. in_passes Hin. injection Hin as <-.
    exists k. split; [lia | f_equal; lia].
  - intros (k & Hk & ->). apply in_or_app. right. apply in_or_app. left.
    apply in_map_iff. exists (0 + k * path_step (avs m)).
    split; [f_equal; lia |]. apply in_visited. exists k. lia.
Qed.

(** X15.  On a call that reaches the drawing stage with a step of at least
    one, every step dot lies on a frame dot, the first step dot is the
    sample of the frame sfra, and the line strip, when drawn, has its
    vertices at exactly the samples of the frame dots. *)
Theorem dots_lie_on_the_path (m : Memory) (sfra efra : Z) :
  resolved_range m = (sfra, efra) ->
  reaches_drawing m = true ->
  1 <= path_step (avs m) ->
  emitted m
  = Some (line_pass m sfra efra ++ frame_dots_pass m sfra efra
          ++ step_dots_pass m sfra efra ++ cframe_pass m sfra efra
          ++ [immUnbindProgram]) /\
  (forall v, In (immVertex3fv attr_pos v) (step_dots_pass m sfra efra) ->
             In (immVertex3fv attr_pos v) (frame_dots_pass m sfra efra)) /\
  In (immVertex3fv attr_pos (sample_of_frame (mpath m) sfra))
     (step_dots_pass m sfra efra) /\
  (test_flag (mp_flag (mpath m)) MOTIONPATH_FLAG_LINES = true ->
   forall v, In (immVertex3fv attr_pos v) (line_pass m sfra efra) <->
             In (immVertex3fv attr_pos v) (frame_dots_pass m sfra efra)).
Proof.
  intros Hrange Hreach Hstep.
  assert (Hlen : 0 < efra - sfra).
  { apply reaches_drawing_iff in Hreach. rewrite Hrange in Hreach.
    cbn [fst snd] in Hreach. lia. }
  destruct (step_count_ceiling Hlen Hstep) as [[Hlo Hhi] Hn].
  split.
  { rewrite emitted_drawn by assumption. now rewrite Hrange. }
  split; [| split].
  - intros v Hin. apply in_step_dots_pass in Hin.
    destruct Hin as (k & Hk & ->). apply in_frame_dots_pass.
    exists (k * path_step (avs m)). split; [nia | reflexivity].
  - apply in_step_dots_pass. exists 0. split; [lia |].
    unfold sample_of_frame. lia.
  - intros Hflag v. now rewrite in_line_pass, in_frame_dots_pass.
Qed.

End DotsOnPath.

(** ** Viewport set-up *)

Section ViewportBracket.
Context {FL : CFloat} {H : Host}.

(** X12.  [draw_motion_paths_init] leaves the view matrix current and the
    depth test off when [v3d->zbuf] is set.  [draw_motion_paths_cleanup]
    after it gives back the model-view matrix and the matrix stack of before
    and turns the depth test on when [v3d->zbuf] is set, so that a state
    with the depth test on is restored exactly; without a pushed matrix the
    cleanup is undefined. *)
Theorem cleanup_undoes_init (v3d : View3D) (ar : ARegion) (g : ViewGL) :
  modelview (draw_motion_paths_init v3d ar g) = viewmat (regiondata ar) /\
  depth_test (draw_motion_paths_init v3d ar g)
  = (if zbuf v3d =? 0 then depth_test g else false) /\
  draw_motion_paths_cleanup v3d (draw_motion_paths_init v3d ar g)
  = Some {| depth_test := if zbuf v3d =? 0 then depth_test g else true;
            modelview := modelview g;
            modelview_stack := modelview_stack g |} /\
  (depth_test g = true ->
   draw_motion_paths_cleanup v3d (draw_motion_paths_init v3d ar g) = Some g) /\
  (modelview_stack g = [] -> draw_motion_paths_cleanup v3d g = None).
Proof.
  unfold draw_motion_paths_init, draw_motion_paths_cleanup.
  destruct g as [dt mv st]. destruct (zbuf v3d =? 0); cbn.
  - repeat split; auto. now intros ->.
  - repeat split; auto; now intros ->.
Qed.

End ViewportBracket.

(** X1 on the range [1, 5] with samples: something is drawn. *)
Lemma draws_iff_range_and_points_witness :
  exists c l, emitted lines_over_1_5 = Some (c :: l).
Proof.
  apply (proj2 (proj1 (@draws_iff_range_and_points QFloat QHost lines_over_1_5
                         ltac:(vm_compute; discriminate)))).
  split; [vm_compute; reflexivity | discriminate].
Defined.

(** X2 on the range [1, 5]: four frame dots. *)
Lemma frame_dots_always_drawn_witness :
  length (drawn_frames 1 5) = 4%nat /\
  exists l, emitted lines_over_1_5 = Some l /\ In (immUniformColor3ub 0 0 0) l.
Proof.
  destruct (@frame_dots_always_drawn QFloat QHost lines_over_1_5 1 5
              eq_refl eq_refl ltac:(vm_compute; discriminate))
    as (rest & E & Hlen).
  split; [exact Hlen |].
  eexists. split; [exact E |].
  apply in_or_app. right. cbn. auto.
Defined.

(** X3 on the range [1, 5] with the current frame 3: the marker is the
    sample 2. *)
Lemma cframe_marker_at_current_frame_witness :
  exists before,
    emitted keyframes_over_1_5
    = Some (before
            ++ [@glPointSize QFloat (6 # 1)%Q;
                immUniformThemeColor TH_CFRAME;
                immBegin GWN_PRIM_POINTS 1;
                immVertex3fv attr_pos 2;
                immEnd;
                immUnbindProgram]).
Proof.
  apply (@cframe_marker_at_current_frame QFloat QHost keyframes_over_1_5).
  - vm_compute. discriminate.
  - apply cframe_marker_guard; [vm_compute; discriminate |].
    split; [discriminate |]. split; [reflexivity |].
    vm_compute. intuition discriminate.
Defined.

(** X4 on the explicit window [4, 4]: nothing is drawn. *)
Lemma degenerate_range_is_noop_witness :
  emitted single_frame_window = Some [].
Proof.
  apply (@degenerate_range_is_noop QFloat QHost single_frame_window).
  right. vm_compute. discriminate.
Defined.

(** X5 on the window [10, 20] inside the cache range [1, 100]. *)
Lemma clamp_range_fixpoints_witness :
  clamp_range (cached_path 1 100 0) (10, 20) = (10, 20).
Proof.
  apply (proj2 (@clamp_range_fixpoints QFloat (cached_path 1 100 0) (10, 20)));
    vm_compute; discriminate.
Defined.

(** X7 on the first vertex of the range [1, 5]. *)
Lemma set_motion_path_color_undefined_iff_witness :
  set_motion_path_color 0 0 1 5 black black black attr_color lines_over_1_5
  <> None.
Proof.
  apply (proj2 (@set_motion_path_color_undefined_iff QFloat QHost 0 0 1 5
                  black black black attr_color lines_over_1_5)).
  vm_compute. intuition discriminate.
Defined.

(** X8 with one frame shown before and after the current frame 3 of a path
    cached over [1, 9]. *)
Lemma cframe_marker_around_current_frame_witness :
  cframe_marker_emitted around_frame_3.
Proof.
  apply (proj2 (@cframe_marker_around_current_frame QFloat QHost around_frame_3
                  eq_refl ltac:(vm_compute; discriminate)
                  ltac:(vm_compute; discriminate)
                  ltac:(discriminate) eq_refl)).
  vm_compute. intuition discriminate.
Defined.

(** X9 on the run over the range [1, 5] with lines drawn. *)
Lemma emitted_respects_imm_protocol_witness :
  exists l,
    emitted lines_over_1_5 = Some l /\ imm_run imm_idle l = Some imm_idle.
Proof.
  eexists. split; [apply emitted_lines_over_1_5 |].
  apply (@emitted_respects_imm_protocol QFloat QHost lines_over_1_5).
  apply emitted_lines_over_1_5.
Defined.

(** X10 on a memory and the memory its run returns, which differ in the
    inverse matrix, the point size and the log. *)
Lemma emitted_depends_only_on_inputs_witness :
  emitted lines_over_1_5 = emitted (drawn lines_over_1_5).
Proof.
  apply (proj1 (@emitted_depends_only_on_inputs QFloat QHost
                  lines_over_1_5 (drawn lines_over_1_5)
                  eq_refl eq_refl eq_refl eq_refl eq_refl eq_refl)).
Defined.

(** X11 on the run over the range [1, 5] with keyframes shown. *)
Lemma second_call_repeats_first_witness :
  emitted (drawn keyframes_over_1_5) = emitted keyframes_over_1_5.
Proof.
  apply (proj1 (@second_call_repeats_first QFloat QHost
                  keyframes_over_1_5 (drawn keyframes_over_1_5)
                  (draw_reaches keyframes_over_1_5 eq_refl
                     ltac:(vm_compute; discriminate)))).
Defined.

(** X12 on a view with a depth buffer and a GL state with the depth test
    on: the state is restored. *)
Lemma cleanup_undoes_init_witness :
  draw_motion_paths_cleanup solid_view
    (draw_motion_paths_init solid_view scaled_region depth_tested_gl)
  = Some depth_tested_gl.
Proof.
  apply (proj1 (proj2 (proj2 (proj2
    (@cleanup_undoes_init QFloat QHost solid_view scaled_region
       depth_tested_gl))))).
  reflexivity.
Defined.

(** X14 on the run over the range [1, 5]: the sample 3 lies within the
    cache range. *)
Lemma rendered_samples_within_cache_witness :
  0 <= 3 <= end_frame (mpath lines_over_1_5)
            - start_frame (mpath lines_over_1_5).
Proof.
  apply (@rendered_samples_within_cache QFloat QHost lines_over_1_5 _
           attr_pos 3 emitted_lines_over_1_5).
  cbn. tauto.
Defined.

(** X15 on the cache range [1, 8] shown whole with step 3. *)
Lemma dots_lie_on_the_path_witness :
  In (immVertex3fv attr_pos 0)
     (step_dots_pass (at_frame 20 (show_range 1 8 3 0) (cached_path 1 8 0))
        1 8).
Proof.
  apply (proj1 (proj2 (proj2
    (@dots_lie_on_the_path QFloat QHost
       (at_frame 20 (show_range 1 8 3 0) (cached_path 1 8 0)) 1 8
       eq_refl eq_refl ltac:(vm_compute; discriminate))))).
Defined.
